(** * mm-nmea-bridge: ModemManager NMEA output bridged to gpsd over a PTY

    A shallow embedding of [mm-nmea-bridge.py] and the properties of its
    forwarding primitive, its two feeds, discovery, activation and teardown.

    Conventions.
    - NMEA payload text is a Python [str]: a sequence of Unicode code points,
      modelled as [list N].  [str.strip], [str.splitlines] and
      [str.startswith] are modelled on code points, with CPython's own
      whitespace and line-boundary tables.
    - Bus names, interface names, object paths and log messages are modelled
      as [string]: D-Bus restricts names and object paths to ASCII.
    - Python [int] is [Z]; [bytes] is [list byte].
    - Effects (globals, file descriptors, the alias path, the bus, the log,
      sleeping) are threaded through an explicit [world], and the replies of
      the outside world are read from an [env] of oracles.  A computation
      ends in a value, in a raised [Exception], or in [SystemExit]. *)

From Stdlib Require Import ZArith NArith Lia Strings.Ascii Strings.Byte.
From stdpp Require Import gmap strings list pretty.

Local Open Scope string_scope.
Local Open Scope Z_scope.
Local Open Scope list_scope.

(** ** Python [str] on code points *)

Abbreviation pystr := (list N).

Module Text.

(** [str.isspace] for one code point (CPython [_PyUnicode_IsWhitespace]). *)
Definition py_isspace (c : N) : bool :=
  ((9 <=? c) && (c <=? 13) || (28 <=? c) && (c <=? 32)
   || (c =? 133) || (c =? 160) || (c =? 5760)
   || (8192 <=? c) && (c <=? 8202)
   || (c =? 8232) || (c =? 8233) || (c =? 8239) || (c =? 8287)
   || (c =? 12288))%N.

(** Line boundaries of [str.splitlines] (CPython [_PyUnicode_IsLinebreak]):
    LF, VT, FF, CR, FS, GS, RS, NEL, LS, PS. *)
Definition is_linebreak (c : N) : bool :=
  ((10 <=? c) && (c <=? 13) || (28 <=? c) && (c <=? 30)
   || (c =? 133) || (c =? 8232) || (c =? 8233))%N.

(** Carriage return, line feed and the sentence-start marker. *)
Definition CR : N := 13%N.
Definition LF : N := 10%N.
Definition DOLLAR : N := 36%N.

(** [s.lstrip()] and [s.rstrip()] *)
Fixpoint lstrip (s : pystr) : pystr :=
  match s with
  | [] => []
  | c :: s' => if py_isspace c then lstrip s' else s
  end.

Definition rstrip (s : pystr) : pystr := rev (lstrip (rev s)).

(** [s.strip()]: leading and trailing whitespace removed. *)
Definition strip (s : pystr) : pystr := rstrip (lstrip s).

(** Put one more character in front of the first line. *)
Definition glue (c : N) (ls : list pystr) : list pystr :=
  match ls with
  | [] => [[c]]
  | l :: ls' => (c :: l) :: ls'
  end.

(** [s.splitlines()] (keepends false): the text between boundaries; a final
    boundary opens no empty last line. *)
Fixpoint splitlines (s : pystr) : list pystr :=
  match s with
  | [] => []
  | c :: s' =>
      if is_linebreak c then
        [] :: match s' with
              | d :: s'' =>
                  if ((c =? CR) && (d =? LF))%N then splitlines s''
                  else splitlines s'
              | [] => []
              end
      else glue c (splitlines s')
  end.

(** [line.startswith("$")] *)
Definition startswith_dollar (line : pystr) : bool :=
  match line with
  | c :: _ => (c =? DOLLAR)%N
  | [] => false
  end.

(** The string literal ["\r\n"]. *)
Definition crlf : pystr := [CR; LF].

(** *** [str.encode()]: UTF-8, strict *)

Definition byte_of (n : N) : byte :=
  match Byte.of_N n with Some b => b | None => x00 end.

(** A code point UTF-8 can encode: at most U+10FFFF and no surrogate. *)
Definition encodable (c : N) : bool :=
  ((c <? 55296) || (57343 <? c) && (c <? 1114112))%N.

Definition utf8_char (c : N) : list byte :=
  (if c <? 128 then [byte_of c]
   else if c <? 2048 then
     [byte_of (N.lor 192 (N.shiftr c 6));
      byte_of (N.lor 128 (N.land c 63))]
   else if c <? 65536 then
     [byte_of (N.lor 224 (N.shiftr c 12));
      byte_of (N.lor 128 (N.land (N.shiftr c 6) 63));
      byte_of (N.lor 128 (N.land c 63))]
   else
     [byte_of (N.lor 240 (N.land (N.shiftr c 18) 7));
      byte_of (N.lor 128 (N.land (N.shiftr c 12) 63));
      byte_of (N.lor 128 (N.land (N.shiftr c 6) 63));
      byte_of (N.lor 128 (N.land c 63))])%N.

Definition utf8 (s : pystr) : list byte := concat (map utf8_char s).

(** [s.encode()]: [None] stands for [UnicodeEncodeError]. *)
Definition encode (s : pystr) : option (list byte) :=
  if forallb encodable s then Some (utf8 s) else None.

(** An ASCII literal as a [str]. *)
Fixpoint lit (s : string) : pystr :=
  match s with
  | EmptyString => []
  | String a s' => N_of_ascii a :: lit s'
  end.

(** The lines [write_nmea] sends, as the source computes them:
    [sentences.strip().splitlines()], each line stripped, kept when it
    starts with the dollar sign. *)
Definition nmea_lines (sentences : pystr) : list pystr :=
  filter (fun l => startswith_dollar l = true)
         (map strip (splitlines (strip sentences))).

(** The same lines as the specification words them: split the text into
    lines, trim each line, keep the lines that begin with the marker. *)
Definition spec_lines (sentences : pystr) : list pystr :=
  filter (fun l => startswith_dollar l = true)
         (map strip (splitlines sentences)).

(** *** For the proofs: the kept lines of a list of raw lines *)

(** Each raw line trimmed, the sentences kept. *)
Definition keep (ls : list pystr) : list pystr :=
  filter (fun l => startswith_dollar l = true) (map strip ls).

(** Put the break-free text [p] in front of the first line. *)
Definition gluel (p : pystr) (ls : list pystr) : list pystr :=
  match ls with
  | [] => match p with [] => [] | _ => [p] end
  | l :: ls' => (p ++ l) :: ls'
  end.

(** Two line lists that stay alike whatever is put in front of them. *)
Definition alike (ls1 ls2 : list pystr) : Prop :=
  forall p, keep (gluel p ls1) = keep (gluel p ls2).

(** Every code point of [s] can be encoded: [s.encode()] does not raise. *)
Definition encodable_str (s : pystr) : Prop := Forall (fun c => encodable c = true) s.

End Text.

Import Text.

(** ** Python [int(str)] and [str.rsplit] on ASCII text

    Object paths and command-line indices are ASCII; [py_int] is [int] on
    ASCII text (a byte outside the ASCII digits, sign, underscore and
    whitespace is rejected). *)

Module Ascii7.

(** The ASCII whitespace [int] skips: TAB, LF, VT, FF, CR and the space. *)
Definition is_space (a : ascii) : bool :=
  let n := N_of_ascii a in
  ((9 <=? n) && (n <=? 13) || (n =? 32))%N.

Definition digit_val (a : ascii) : option Z :=
  let n := N_of_ascii a in
  if ((48 <=? n) && (n <=? 57))%N then Some (Z.of_N n - 48) else None.

(** Decimal digits, single underscores allowed between digits only. *)
Fixpoint digits (acc : Z) (after_digit : bool) (s : string) : option Z :=
  match s with
  | EmptyString => if after_digit then Some acc else None
  | String a s' =>
      match digit_val a with
      | Some d => digits (10 * acc + d) true s'
      | None =>
          if (Ascii.eqb a "_" && after_digit)%bool then digits acc false s'
          else None
      end
  end.

Fixpoint lstrip (s : string) : string :=
  match s with
  | EmptyString => EmptyString
  | String a s' => if is_space a then lstrip s' else s
  end.

Definition strip (s : string) : string :=
  String.rev (lstrip (String.rev (lstrip s))).

(** [int(s)] in base ten: surrounding whitespace, an optional sign, digits.
    [None] stands for [ValueError]. *)
Definition py_int (s : string) : option Z :=
  match strip s with
  | String "-" s' => Z.opp <$> digits 0 false s'
  | String "+" s' => digits 0 false s'
  | s' => digits 0 false s'
  end.

Fixpoint last_segment_from (cur : string) (s : string) : string :=
  match s with
  | EmptyString => cur
  | String a s' =>
      if Ascii.eqb a "/" then last_segment_from EmptyString s'
      else last_segment_from (cur +:+ String a EmptyString) s'
  end.

(** [s.rsplit("/", 1)[-1]]: the text after the last slash. *)
Definition last_segment (s : string) : string := last_segment_from EmptyString s.

End Ascii7.

(** ** Configuration constants *)

Definition MM_SERVICE : string := "org.freedesktop.ModemManager1".
Definition MM_OBJ_PATH : string := "/org/freedesktop/ModemManager1".
Definition MM_LOC_IFACE : string := "org.freedesktop.ModemManager1.Modem.Location".
Definition PTY_LINK : string := "/run/nmea-bridge".
Definition GPS_NMEA : Z := 4.

Definition SIGINT : Z := 2.
Definition SIGTERM : Z := 15.

Definition newline : string := String (ascii_of_nat 10) EmptyString.

(** ** Exceptions, outcomes, the world *)

(** The subclasses of [Exception] the program meets. *)
Inductive exc : Type :=
| OSError (errno : Z) (strerror : string)
| KeyError (key : string)
| ValueError (msg : string)
| TypeError (msg : string)
| UnicodeEncodeError
| RuntimeError (msg : string)
| DBusException (name : string) (message : string).

Definition EBADF : Z := 9.
Definition ENOENT : Z := 2.
Definition EEXIST : Z := 17.

Definition is_OSError (e : exc) : bool :=
  match e with OSError _ _ => true | _ => false end.

Definition is_DBusException (e : exc) : bool :=
  match e with DBusException _ _ => true | _ => false end.

(** [except Exception] *)
Definition is_Exception (e : exc) : bool := true.

(** [str(exc)] *)
Definition exc_str (e : exc) : string :=
  match e with
  | OSError errno strerror => "[Errno " +:+ pretty errno +:+ "] " +:+ strerror
  | KeyError key => "'" +:+ key +:+ "'"
  | ValueError msg => msg
  | TypeError msg => msg
  | UnicodeEncodeError => "'utf-8' codec can't encode character: surrogates not allowed"
  | RuntimeError msg => msg
  | DBusException name message => name +:+ ": " +:+ message
  end.

(** [exc.get_dbus_name()] *)
Definition get_dbus_name (e : exc) : string :=
  match e with DBusException name _ => name | _ => EmptyString end.

(** How a computation ends: a value, a raised [Exception], or [SystemExit]
    (which [except Exception] does not catch). *)
Inductive outcome (A : Type) : Type :=
| Ret (a : A)
| Raise (e : exc)
| Exit (status : Z).
Arguments Ret {A} a.
Arguments Raise {A} e.
Arguments Exit {A} status.

(** What is found at [PTY_LINK]. *)
Inductive alias_state : Type :=
| NoFile
| SymlinkTo (target : string)
| OtherFile.

(** The calls that reach the outside world, in the order they are made. *)
Inductive event : Type :=
| EvLog (msg : string)
| EvStderr (msg : string)
| EvOsWrite (fd : Z) (data : list byte) (errno : option Z)
| EvSleep (secs : Z)
| EvGetManagedObjects
| EvSetup (path : string) (sources : Z) (signal_location : bool)
| EvGet (path : string)
| EvClose (fd : Z) (errno : option Z)
| EvUnlink
| EvSymlink (target : string)
| EvChown (name : string) (uid gid : Z)
| EvChmod (name : string) (mode : Z)
| EvTimeoutAdd (path : string)
| EvAddSignalReceiver (path : string)
| EvSignalInstall (signum : Z)
| EvSignalHandler (signum : Z)
| EvSystemctlStart
| EvGpsdctlAdd.

(** One bus object of [GetManagedObjects]: its path and, per interface, its
    unsigned-integer properties ([Capabilities] has D-Bus type [u]).  The
    reply is an association list: [objects.items()] is walked in order. *)
Abbreviation interfaces := (gmap string (gmap string Z)).
Abbreviation objects := (list (string * interfaces)).

(** The [Location] property: capability bit to text. *)
Abbreviation location := (gmap Z pystr).

Record world : Type := mkWorld {
  master_fd : option Z;          (* the module global [master_fd] *)
  _last_nmea : pystr;            (* the module global [_last_nmea] *)
  open_fds : gset Z;             (* the descriptors the process holds open *)
  alias : alias_state;           (* the file system at [PTY_LINK] *)
  trace : list event;            (* oldest call first *)
  n_enum : nat;                  (* [GetManagedObjects] calls made *)
  n_setup : nat;                 (* [Setup] calls made *)
  n_get : nat;                   (* [Properties.Get] calls made *)
  n_write : nat;                 (* [os.write] calls made on an open descriptor *)
  n_gpsdctl : nat                (* [gpsdctl add] runs *)
}.

(** The replies of the outside world. *)
Record env : Type := mkEnv {
  euid : Z;
  argv : list string;
  openpty_reply : exc + (Z * Z);
  ttyname_reply : exc + string;
  getgrnam_dialout : option Z;
  chown_error : option exc;
  chmod_error : option exc;
  unlink_error : option exc;
  symlink_error : option exc;
  alias_target_exists : bool;
  system_bus_error : option exc;
  managed_objects : nat -> exc + objects;
  setup_reply : string -> nat -> option exc;
  location_reply : string -> nat -> exc + location;
  write_error : nat -> option (Z * string);
  gpsdctl_reply : nat -> Z * bool;
  handler_error_ends_run : exc -> bool
}.

Definition set_master_fd (v : option Z) (w : world) : world :=
  mkWorld v (_last_nmea w) (open_fds w) (alias w) (trace w)
          (n_enum w) (n_setup w) (n_get w) (n_write w) (n_gpsdctl w).
Definition set_last_nmea (v : pystr) (w : world) : world :=
  mkWorld (master_fd w) v (open_fds w) (alias w) (trace w)
          (n_enum w) (n_setup w) (n_get w) (n_write w) (n_gpsdctl w).
Definition set_open_fds (v : gset Z) (w : world) : world :=
  mkWorld (master_fd w) (_last_nmea w) v (alias w) (trace w)
          (n_enum w) (n_setup w) (n_get w) (n_write w) (n_gpsdctl w).
Definition set_alias (v : alias_state) (w : world) : world :=
  mkWorld (master_fd w) (_last_nmea w) (open_fds w) v (trace w)
          (n_enum w) (n_setup w) (n_get w) (n_write w) (n_gpsdctl w).
Definition add_event (e : event) (w : world) : world :=
  mkWorld (master_fd w) (_last_nmea w) (open_fds w) (alias w) (trace w ++ [e])
          (n_enum w) (n_setup w) (n_get w) (n_write w) (n_gpsdctl w).
Definition next_enum (w : world) : world :=
  mkWorld (master_fd w) (_last_nmea w) (open_fds w) (alias w) (trace w)
          (S (n_enum w)) (n_setup w) (n_get w) (n_write w) (n_gpsdctl w).
Definition next_setup (w : world) : world :=
  mkWorld (master_fd w) (_last_nmea w) (open_fds w) (alias w) (trace w)
          (n_enum w) (S (n_setup w)) (n_get w) (n_write w) (n_gpsdctl w).
Definition next_get (w : world) : world :=
  mkWorld (master_fd w) (_last_nmea w) (open_fds w) (alias w) (trace w)
          (n_enum w) (n_setup w) (S (n_get w)) (n_write w) (n_gpsdctl w).
Definition next_write (w : world) : world :=
  mkWorld (master_fd w) (_last_nmea w) (open_fds w) (alias w) (trace w)
          (n_enum w) (n_setup w) (n_get w) (S (n_write w)) (n_gpsdctl w).
Definition next_gpsdctl (w : world) : world :=
  mkWorld (master_fd w) (_last_nmea w) (open_fds w) (alias w) (trace w)
          (n_enum w) (n_setup w) (n_get w) (n_write w) (S (n_gpsdctl w)).

(** The process as it starts: the standard descriptors open, nothing
    forwarded, [a] at the alias path. *)
Definition initial_world (a : alias_state) : world :=
  mkWorld None [] {[ 0; 1; 2 ]} a [] 0 0 0 0 0.

(** ** The monad of effects *)

Definition M (A : Type) : Type := world -> outcome A * world.

Definition ret {A} (a : A) : M A := fun w => (Ret a, w).

Definition bind {A B} (m : M A) (k : A -> M B) : M B :=
  fun w =>
    match m w with
    | (Ret a, w') => k a w'
    | (Raise e, w') => (Raise e, w')
    | (Exit c, w') => (Exit c, w')
    end.

Definition raise {A} (e : exc) : M A := fun w => (Raise e, w).

(** [sys.exit(status)] *)
Definition sys_exit {A} (status : Z) : M A := fun w => (Exit status, w).

(** [try: m  except <catches> as e: h e] *)
Definition try_except {A} (m : M A) (catches : exc -> bool) (h : exc -> M A) : M A :=
  fun w =>
    match m w with
    | (Raise e, w') => if catches e then h e w' else (Raise e, w')
    | r => r
    end.

Definition gets {A} (f : world -> A) : M A := fun w => (Ret (f w), w).
Definition modify (f : world -> world) : M unit := fun w => (Ret tt, f w).
Definition emit (e : event) : M unit := modify (add_event e).

Declare Scope prog_scope.
Delimit Scope prog_scope with prog.
Notation "x <- m ;; k" := (bind m (fun x => k))
  (at level 100, m at next level, right associativity) : prog_scope.
Notation "m ;; k" := (bind m (fun _ => k))
  (at level 100, right associativity) : prog_scope.
Local Open Scope prog_scope.

(** [for x in l: body x] *)
Fixpoint for_each {A} (l : list A) (body : A -> M unit) : M unit :=
  match l with
  | [] => ret tt
  | x :: l' => body x ;; for_each l' body
  end.

Definition lift_reply {A} (r : exc + A) : M A :=
  match r with inl e => raise e | inr a => ret a end.

Definition fail_if (r : option exc) : M unit :=
  match r with Some e => raise e | None => ret tt end.

(** ** System and library calls *)

(** [log]: one line on standard output and one in the system log. *)
Definition log (msg : string) : M unit := emit (EvLog msg).

Definition time_sleep (secs : Z) : M unit :=
  if secs <? 0 then raise (ValueError "sleep length must be non-negative")
  else emit (EvSleep secs).

(** [os.write(fd, data)]: [TypeError] when [fd] is [None], [EBADF] on a
    closed descriptor, otherwise what the outside world answers. *)
Definition os_write (E : env) (fd : option Z) (data : list byte) : M unit :=
  fun w =>
    match fd with
    | None => (Raise (TypeError "an integer is required"), w)
    | Some fd =>
        if decide (fd ∈ open_fds w) then
          match write_error E (n_write w) with
          | Some (errno, msg) =>
              (Raise (OSError errno msg),
               add_event (EvOsWrite fd data (Some errno)) (next_write w))
          | None => (Ret tt, add_event (EvOsWrite fd data None) (next_write w))
          end
        else (Raise (OSError EBADF "Bad file descriptor"),
              add_event (EvOsWrite fd data (Some EBADF)) w)
    end.

Definition os_close (fd : Z) : M unit :=
  fun w =>
    if decide (fd ∈ open_fds w) then
      (Ret tt, add_event (EvClose fd None) (set_open_fds (open_fds w ∖ {[ fd ]}) w))
    else (Raise (OSError EBADF "Bad file descriptor"),
          add_event (EvClose fd (Some EBADF)) w).

Definition pty_openpty (E : env) : M (Z * Z) :=
  ms <- lift_reply (openpty_reply E) ;;
  modify (fun w => set_open_fds (open_fds w ∪ {[ ms.1; ms.2 ]}) w) ;;
  ret ms.

Definition os_ttyname (E : env) (fd : Z) : M string := lift_reply (ttyname_reply E).

(** [grp.getgrnam("dialout").gr_gid] *)
Definition grp_getgrnam_dialout (E : env) : M Z :=
  match getgrnam_dialout E with
  | Some gid => ret gid
  | None => raise (KeyError "getgrnam(): name not found: 'dialout'")
  end.

Definition os_chown (E : env) (name : string) (uid gid : Z) : M unit :=
  fail_if (chown_error E) ;; emit (EvChown name uid gid).

Definition os_chmod (E : env) (name : string) (mode : Z) : M unit :=
  fail_if (chmod_error E) ;; emit (EvChmod name mode).

(** [os.path.islink(PTY_LINK)] *)
Definition os_path_islink : M bool :=
  gets (fun w => match alias w with SymlinkTo _ => true | _ => false end).

(** [os.path.exists(PTY_LINK)] follows a symbolic link. *)
Definition os_path_exists (E : env) : M bool :=
  gets (fun w => match alias w with
                 | NoFile => false
                 | SymlinkTo _ => alias_target_exists E
                 | OtherFile => true
                 end).

(** [os.unlink(PTY_LINK)] *)
Definition os_unlink (E : env) : M unit :=
  fun w =>
    match alias w with
    | NoFile => (Raise (OSError ENOENT "No such file or directory"), w)
    | _ => match unlink_error E with
           | Some e => (Raise e, w)
           | None => (Ret tt, add_event EvUnlink (set_alias NoFile w))
           end
    end.

(** [os.symlink(target, PTY_LINK)] *)
Definition os_symlink (E : env) (target : string) : M unit :=
  fun w =>
    match alias w with
    | NoFile => match symlink_error E with
                | Some e => (Raise e, w)
                | None => (Ret tt, add_event (EvSymlink target)
                                             (set_alias (SymlinkTo target) w))
                end
    | _ => (Raise (OSError EEXIST "File exists"), w)
    end.

(** [dbus.SystemBus()] *)
Definition dbus_SystemBus (E : env) : M unit := fail_if (system_bus_error E).

(** [bus.get_object(MM_SERVICE, MM_OBJ_PATH)] and [GetManagedObjects()] on
    its object manager. *)
Definition GetManagedObjects (E : env) : M objects :=
  fun w =>
    let w1 := add_event EvGetManagedObjects (next_enum w) in
    match managed_objects E (n_enum w) with
    | inl e => (Raise e, w1)
    | inr objs => (Ret objs, w1)
    end.

(** [location_iface.Setup(sources, signal_location)] on the modem at [path]. *)
Definition location_iface_Setup (E : env) (path : string) (sources : Z)
    (signal_location : bool) : M unit :=
  fun w =>
    let w1 := add_event (EvSetup path sources signal_location) (next_setup w) in
    match setup_reply E path (n_setup w) with
    | Some e => (Raise e, w1)
    | None => (Ret tt, w1)
    end.

(** [props_iface.Get(MM_LOC_IFACE, "Location")] on the modem at [path]. *)
Definition props_iface_Get (E : env) (path : string) : M location :=
  fun w =>
    let w1 := add_event (EvGet path) (next_get w) in
    match location_reply E path (n_get w) with
    | inl e => (Raise e, w1)
    | inr loc => (Ret loc, w1)
    end.

(** [subprocess.run(["gpsdctl", "add", PTY_LINK], capture_output=True)]: the
    return code and whether the output holds "reached a running gpsd". *)
Definition gpsdctl_add (E : env) : M (Z * bool) :=
  fun w => (Ret (gpsdctl_reply E (n_gpsdctl w)), add_event EvGpsdctlAdd (next_gpsdctl w)).

(** ** The program *)

Definition ellipsis : string := "…".
Definition arrow : string := "→".

(** The object loop of [find_gps_modem] (lines 54-59): the first object that
    exposes the location interface with the NMEA bit in [Capabilities]. *)
Definition capable (ifs : interfaces) : bool :=
  match ifs !! MM_LOC_IFACE with
  | Some props => negb (Z.land (default 0 (props !! "Capabilities")) GPS_NMEA =? 0)
  | None => false
  end.

Fixpoint find_in_objects (objs : objects) : M (option (Z * string)) :=
  match objs with
  | [] => ret None
  | (path, ifs) :: rest =>
      if capable ifs then
        match Ascii7.py_int (Ascii7.last_segment path) with
        | Some index => ret (Some (index, path))
        | None => raise (ValueError "invalid literal for int() with base 10")
        end
      else find_in_objects rest
  end.

Definition no_modem_message (retries delay : Z) : string :=
  "No modem with GPS NMEA capability found after "
  +:+ pretty (retries * delay) +:+ "s." +:+ newline
  +:+ "Check:  mmcli -L && mmcli -m <index> --location-status".

Definition retry_message (delay attempt retries : Z) : string :=
  "No GPS modem found yet, retrying in " +:+ pretty delay +:+ "s" +:+ ellipsis
  +:+ " (" +:+ pretty (attempt + 1) +:+ "/" +:+ pretty retries +:+ ")".

(** [for attempt in range(retries)] with [n] iterations left. *)
Fixpoint find_gps_modem_from (E : env) (n : nat) (attempt retries delay : Z)
    : M (Z * string) :=
  match n with
  | O => raise (RuntimeError (no_modem_message retries delay))
  | S n' =>
      objs <- GetManagedObjects E ;;
      found <- find_in_objects objs ;;
      match found with
      | Some r => ret r
      | None =>
          (if attempt <? retries - 1 then
             log (retry_message delay attempt retries) ;; time_sleep delay
           else ret tt) ;;
          find_gps_modem_from E n' (attempt + 1) retries delay
      end
  end.

Definition find_gps_modem (E : env) (retries delay : Z) : M (Z * string) :=
  find_gps_modem_from E (Z.to_nat retries) 0 retries delay.

Definition setup_pty (E : env) : M string :=
  ms <- pty_openpty E ;;
  modify (set_master_fd (Some ms.1)) ;;
  slave_name <- os_ttyname E ms.2 ;;
  os_close ms.2 ;;
  dialout_gid <- grp_getgrnam_dialout E ;;
  os_chown E slave_name 0 dialout_gid ;;
  os_chmod E slave_name 432 ;;
  is_link <- os_path_islink ;;
  stale <- (if is_link then ret true else os_path_exists E) ;;
  (if stale then os_unlink E else ret tt) ;;
  os_symlink E slave_name ;;
  log ("PTY slave: " +:+ slave_name +:+ "  " +:+ arrow +:+ "  " +:+ PTY_LINK) ;;
  ret slave_name.

(** [(line + "\r\n").encode()] *)
Definition encode_line (line : pystr) : M (list byte) :=
  match encode (line ++ crlf) with
  | Some data => ret data
  | None => raise UnicodeEncodeError
  end.

Definition write_nmea (E : env) (sentences : pystr) : M unit :=
  for_each (splitlines (strip sentences)) (fun line =>
    let line := strip line in
    if startswith_dollar line then
      try_except
        (data <- encode_line line ;;
         fd <- gets master_fd ;;
         os_write E fd data)
        is_OSError
        (fun exc => log ("PTY write error: " +:+ exc_str exc))
    else ret tt).

(** [str(d.get(GPS_NMEA, ""))] *)
Definition nmea_of (loc : location) : pystr := default [] (loc !! GPS_NMEA).

(** The truth value of a [str]. *)
Definition nonempty (s : pystr) : bool :=
  match s with [] => false | _ => true end.

Definition poll_nmea (E : env) (props_iface : string) : M bool :=
  try_except
    (loc <- props_iface_Get E props_iface ;;
     let nmea := nmea_of loc in
     if nonempty nmea then
       write_nmea E nmea ;;
       modify (set_last_nmea nmea)
     else ret tt)
    is_Exception
    (fun exc => log ("Poll error: " +:+ exc_str exc)) ;;
  ret true.

Definition on_properties_changed (E : env) (iface : string)
    (changed : gmap string location) : M unit :=
  if negb (String.eqb iface MM_LOC_IFACE) then ret tt
  else
    let loc := default ∅ (changed !! "Location") in
    let nmea := nmea_of loc in
    if nonempty nmea then write_nmea E nmea else ret tt.

Fixpoint notify_gpsd_from (E : env) (n : nat) : M unit :=
  match n with
  | O => log ("Warning: could not add " +:+ PTY_LINK +:+ " to gpsd after 10 s; "
              +:+ "run manually:  gpsdctl add " +:+ PTY_LINK)
  | S n' =>
      time_sleep 1 ;;
      r <- gpsdctl_add E ;;
      if r.1 =? 0 then log ("gpsdctl: added " +:+ PTY_LINK)
      else if r.2 then log ("gpsdctl: gpsd already tracking " +:+ PTY_LINK)
      else notify_gpsd_from E n'
  end.

Definition notify_gpsd (E : env) : M unit :=
  emit EvSystemctlStart ;; notify_gpsd_from E 10.

Definition cleanup (E : env) (location_iface : string) : M unit :=
  log ("Shutting down" +:+ ellipsis) ;;
  try_except (location_iface_Setup E location_iface 0 false)
             is_Exception (fun _ => ret tt) ;;
  is_link <- os_path_islink ;;
  (if is_link then os_unlink E else ret tt) ;;
  fd <- gets master_fd ;;
  match fd with Some fd => os_close fd | None => ret tt end ;;
  sys_exit 0.

(** The statements of [cleanup] before its [sys.exit(0)], one by one. *)
Definition cleanup_steps (E : env) (location_iface : string) : list (M unit) :=
  [ log ("Shutting down" +:+ ellipsis);
    try_except (location_iface_Setup E location_iface 0 false)
               is_Exception (fun _ => ret tt);
    (is_link <- os_path_islink ;; if is_link then os_unlink E else ret tt);
    (fd <- gets master_fd ;;
     match fd with Some fd => os_close fd | None => ret tt end) ].

Definition run_all (steps : list (M unit)) : M unit :=
  for_each steps (fun step => step).

(** [cleanup] while it handles one signal, with a second signal delivered
    once [k] of its statements have run: the interpreter calls a handler
    between two statements, so the handler runs [cleanup] again there, and
    what that run raises (it always ends in an exception or in
    [SystemExit]) leaves the first run at that point. *)
Definition cleanup_reentered (E : env) (location_iface : string) (k : nat) : M unit :=
  run_all (take k (cleanup_steps E location_iface)) ;;
  cleanup E location_iface ;;
  run_all (drop k (cleanup_steps E location_iface)) ;;
  sys_exit 0.

Definition setup_failed_message (exc : exc) (attempt : Z) : string :=
  "Setup failed (" +:+ get_dbus_name exc +:+ "), retrying in 2s" +:+ ellipsis
  +:+ " (" +:+ pretty (attempt + 1) +:+ "/10)".

(** The activation loop of [main] (lines 184-193), [n] iterations left. *)
Fixpoint enable_gps_nmea_from (E : env) (location_iface : string) (n : nat)
    (attempt : Z) : M unit :=
  match n with
  | O => ret tt
  | S n' =>
      try_except
        (location_iface_Setup E location_iface GPS_NMEA true)
        is_DBusException
        (fun exc =>
           if attempt =? 9 then raise exc
           else
             log (setup_failed_message exc attempt) ;;
             time_sleep 2 ;;
             enable_gps_nmea_from E location_iface n' (attempt + 1))
  end.

Definition enable_gps_nmea (E : env) (location_iface : string) : M unit :=
  enable_gps_nmea_from E location_iface 10 0.

(** What the reactor dispatches while [GLib.MainLoop().run()] runs. *)
Inductive reactor_event : Type :=
| TimerTick
| PropertiesChanged (iface : string) (changed : gmap string location)
| TermSignal (signum : Z).

(** [GLib.MainLoop().run()] over the events [evs], a finite prefix of what
    the reactor dispatches: a tick calls [poll_nmea] while the timer is
    armed and the timer stays armed when the callback returns true; the bus
    client reports and drops an exception of a signal receiver; SIGTERM and
    SIGINT run [cleanup].  [SystemExit] leaving the handler ends the
    process.  Whether another exception leaving the handler ends [run()]
    too, or is reported and dropped while the loop goes on, is decided by
    the reactor, not by this program: the environment says which. *)
Fixpoint mainloop_run (E : env) (modem_path : string) (armed : bool)
    (evs : list reactor_event) : M unit :=
  match evs with
  | [] => ret tt
  | TimerTick :: evs' =>
      if armed then
        again <- poll_nmea E modem_path ;;
        mainloop_run E modem_path again evs'
      else mainloop_run E modem_path armed evs'
  | PropertiesChanged iface changed :: evs' =>
      try_except (on_properties_changed E iface changed)
                 is_Exception (fun _ => ret tt) ;;
      mainloop_run E modem_path armed evs'
  | TermSignal signum :: evs' =>
      emit (EvSignalHandler signum) ;;
      try_except (cleanup E modem_path)
                 (fun e => negb (handler_error_ends_run E e))
                 (fun _ => ret tt) ;;
      mainloop_run E modem_path armed evs'
  end.

(** Lines 172-177 of [main]: the modem from the command line or discovery. *)
Definition choose_modem (E : env) : M (Z * string) :=
  match argv E with
  | _ :: arg :: _ =>
      match Ascii7.py_int arg with
      | Some modem_index =>
          ret (modem_index,
               "/org/freedesktop/ModemManager1/Modem/" +:+ pretty modem_index)
      | None => raise (ValueError "invalid literal for int() with base 10")
      end
  | _ =>
      r <- find_gps_modem E 15 2 ;;
      log ("Auto-discovered GPS modem: index " +:+ pretty r.1
           +:+ " (" +:+ r.2 +:+ ")") ;;
      ret r
  end.

(** [main].  Installing the GLib main loop for the bus and building the
    proxies of the modem object make no call that can fail here; the modem
    is known to the calls below by its path. *)
Definition main (E : env) (evs : list reactor_event) : M unit :=
  setup_pty E ;;
  dbus_SystemBus E ;;
  modem <- choose_modem E ;;
  let modem_index := modem.1 in
  let modem_path := modem.2 in
  enable_gps_nmea E modem_path ;;
  log ("GPS NMEA enabled on modem " +:+ pretty modem_index
       +:+ " (" +:+ modem_path +:+ ")") ;;
  emit (EvTimeoutAdd modem_path) ;;
  emit (EvAddSignalReceiver modem_path) ;;
  for_each [SIGTERM; SIGINT] (fun sig => emit (EvSignalInstall sig)) ;;
  notify_gpsd E ;;
  log ("Forwarding NMEA " +:+ arrow +:+ " " +:+ PTY_LINK +:+ "  (Ctrl-C to stop)") ;;
  mainloop_run E modem_path true evs.

(** The script body (lines 216-219): [sys.exit] with a message prints it on
    standard error and exits with status 1. *)
Definition script (E : env) (evs : list reactor_event) : M unit :=
  if negb (euid E =? 0) then
    emit (EvStderr "Must run as root (needs D-Bus system bus + PTY_LINK in /run)") ;;
    sys_exit 1
  else main E evs.

(** * Observations, invariants and sample runs *)

(** ** What the trace shows *)

(** The [os.write] calls made, failed ones included. *)
Definition attempted (t : list event) : list (Z * list byte) :=
  omap (fun e => match e with EvOsWrite fd data _ => Some (fd, data) | _ => None end) t.

(** The [os.write] calls that succeeded. *)
Definition written (t : list event) : list (Z * list byte) :=
  omap (fun e => match e with EvOsWrite fd data None => Some (fd, data) | _ => None end) t.

(** The bytes of one line on the wire. *)
Definition line_data (line : pystr) : list byte := utf8 (line ++ crlf).

Definition write_error_message (errno : Z) (strerror : string) : string :=
  "PTY write error: " +:+ exc_str (OSError errno strerror).

(** The world after one kept line went through the [try] of [write_nmea]. *)
Definition forward_line (E : env) (fd : Z) (w : world) (line : pystr) : world :=
  if decide (fd ∈ open_fds w) then
    match write_error E (n_write w) with
    | Some (errno, msg) =>
        add_event (EvLog (write_error_message errno msg))
          (add_event (EvOsWrite fd (line_data line) (Some errno)) (next_write w))
    | None => add_event (EvOsWrite fd (line_data line) None) (next_write w)
    end
  else
    add_event (EvLog (write_error_message EBADF "Bad file descriptor"))
      (add_event (EvOsWrite fd (line_data line) (Some EBADF)) w).

(** The events of one kept line: the write alone, or the failed write and
    the log line that reports it. *)
Definition line_outcome (fd : Z) (line : pystr) (evs : list event) : Prop :=
  evs = [EvOsWrite fd (line_data line) None]
  \/ exists errno msg,
       evs = [EvOsWrite fd (line_data line) (Some errno);
              EvLog (write_error_message errno msg)].

(** ** Discovery *)

(** No object of the reply is capable. *)
Definition no_capable (objs : objects) : Prop :=
  Forall (fun po => capable po.2 = false) objs.

(** The calls of [k] attempts that find nothing, from attempt [attempt] on. *)
Fixpoint miss_events (retries delay attempt : Z) (k : nat) : list event :=
  match k with
  | O => []
  | S k' =>
      EvGetManagedObjects
        :: (if attempt <? retries - 1
            then [EvLog (retry_message delay attempt retries); EvSleep delay]
            else [])
        ++ miss_events retries delay (attempt + 1) k'
  end.

(** The world after [k] more enumerations whose calls were [evs]. *)
Definition missed (k : nat) (evs : list event) (w : world) : world :=
  mkWorld (master_fd w) (_last_nmea w) (open_fds w) (alias w) (trace w ++ evs)
          (n_enum w + k) (n_setup w) (n_get w) (n_write w) (n_gpsdctl w).

(** The calls of a discovery that uses up its budget of [retries] attempts. *)
Definition exhausted_trace (retries delay : Z) : list event :=
  if retries =? 0 then []
  else flat_map (fun i => [EvGetManagedObjects;
                           EvLog (retry_message delay i retries);
                           EvSleep delay])
                (seqZ 0 (retries - 1))
       ++ [EvGetManagedObjects].

Definition enumerations (t : list event) : nat :=
  length (omap (fun e => match e with EvGetManagedObjects => Some tt | _ => None end) t).

Definition sleeps (t : list event) : list Z :=
  omap (fun e => match e with EvSleep secs => Some secs | _ => None end) t.

Definition total (l : list Z) : Z := foldr Z.add 0 l.

(** ** What a computation leaves alone *)

(** [m] never ends in [SystemExit]. *)
Definition no_exit {A} (m : M A) : Prop :=
  forall w status, (m w).1 <> Exit status.

(** [m] leaves the world related to the one it started from. *)
Definition preserves {A} (R : world -> world -> Prop) (m : M A) : Prop :=
  forall w, R w (m w).2.

(** ** The two feeds and the snapshot *)

(** The snapshot [_last_nmea] is the same in both worlds. *)
Definition same_snapshot (w w' : world) : Prop := _last_nmea w' = _last_nmea w.

(** The endpoint (handle, open descriptors, alias) and the count of [Setup]
    calls are the same in both worlds. *)
Definition same_endpoint (w w' : world) : Prop :=
  master_fd w' = master_fd w /\ open_fds w' = open_fds w
  /\ alias w' = alias w /\ n_setup w' = n_setup w.

(** The world once [Properties.Get] was called. *)
Definition got (path : string) (w : world) : world :=
  add_event (EvGet path) (next_get w).

(** ** Activation *)

(** The world after [k] more [Setup] calls whose calls were [evs]. *)
Definition retried (k : nat) (evs : list event) (w : world) : world :=
  mkWorld (master_fd w) (_last_nmea w) (open_fds w) (alias w) (trace w ++ evs)
          (n_enum w) (n_setup w + k) (n_get w) (n_write w) (n_gpsdctl w).

(** The calls of attempt [i] when it fails with [err i] and is retried. *)
Definition setup_round (path : string) (err : nat -> exc) (i : nat) : list event :=
  [EvSetup path GPS_NMEA true;
   EvLog (setup_failed_message (err i) (Z.of_nat i));
   EvSleep 2].

(** The calls of an activation whose first [k] attempts fail and are retried
    and whose next attempt is the last one made. *)
Definition activation_trace (path : string) (err : nat -> exc) (k : nat) : list event :=
  flat_map (setup_round path err) (seq 0 k) ++ [EvSetup path GPS_NMEA true].

(** ** Teardown *)

(** The world after the first two steps of [cleanup] (the log line and the
    deactivation call, whatever it answered) and the calls [evs]. *)
Definition shut (path : string) (evs : list event) (w : world) : world :=
  mkWorld (master_fd w) (_last_nmea w) (open_fds w) (alias w)
          (trace w ++ [EvLog ("Shutting down" +:+ ellipsis); EvSetup path 0 false] ++ evs)
          (n_enum w) (S (n_setup w)) (n_get w) (n_write w) (n_gpsdctl w).

(** The endpoint is released: no alias, and the handle, if any, is closed. *)
Definition released (w : world) : Prop :=
  alias w = NoFile /\ forall fd, master_fd w = Some fd -> fd ∉ open_fds w.

(** ** Startup *)

(** The world once the pair is open, the handle kept and the slave closed. *)
Definition pty_opened (m s : Z) (w : world) : world :=
  add_event (EvClose s None)
    (set_open_fds ((open_fds w ∪ {[ m; s ]}) ∖ {[ s ]}) (set_master_fd (Some m) w)).

(** ... and the slave device handed to root:dialout, mode 0660. *)
Definition prepared (m s : Z) (name : string) (gid : Z) (w : world) : world :=
  add_event (EvChmod name 432) (add_event (EvChown name 0 gid) (pty_opened m s w)).

(** ... and whatever was at the alias path removed. *)
Definition unstaled (w : world) : world :=
  match alias w with
  | NoFile => w
  | _ => add_event EvUnlink (set_alias NoFile w)
  end.

(** The world [setup_pty] leaves when every step succeeds. *)
Definition endpoint_ready (m s : Z) (name : string) (gid : Z) (w : world) : world :=
  add_event (EvLog ("PTY slave: " +:+ name +:+ "  " +:+ arrow +:+ "  " +:+ PTY_LINK))
    (add_event (EvSymlink name)
       (set_alias (SymlinkTo name) (unstaled (prepared m s name gid w)))).

(** The pair the system hands out: two distinct descriptors and the name of
    the slave device. *)
Definition pty_pair (E : env) (m s : Z) (name : string) : Prop :=
  openpty_reply E = inr (m, s) /\ m <> s /\ ttyname_reply E = inr name.

(** Every step of [setup_pty] succeeds when [a] is at the alias path. *)
Definition endpoint_acquired (E : env) (a : alias_state) (m s : Z) (name : string)
    (gid : Z) : Prop :=
  pty_pair E m s name
  /\ getgrnam_dialout E = Some gid
  /\ chown_error E = None /\ chmod_error E = None
  /\ (a = NoFile \/ unlink_error E = None)
  /\ symlink_error E = None.

(** The fatal startup errors: the exception raised and what is then found
    at the alias path. *)
Inductive fatal_startup (E : env) (a : alias_state) : exc -> alias_state -> Prop :=
| GroupLookupFailure m s name :
    pty_pair E m s name ->
    getgrnam_dialout E = None ->
    fatal_startup E a (KeyError "getgrnam(): name not found: 'dialout'") a
| AliasUnlinkFailure m s name gid e :
    pty_pair E m s name ->
    getgrnam_dialout E = Some gid ->
    chown_error E = None -> chmod_error E = None ->
    a <> NoFile ->
    unlink_error E = Some e ->
    fatal_startup E a e a
| AliasSymlinkFailure m s name gid e :
    pty_pair E m s name ->
    getgrnam_dialout E = Some gid ->
    chown_error E = None -> chmod_error E = None ->
    (a = NoFile \/ unlink_error E = None) ->
    symlink_error E = Some e ->
    fatal_startup E a e NoFile
| DiscoveryExhausted m s name gid :
    endpoint_acquired E a m s name gid ->
    system_bus_error E = None ->
    (length (argv E) <= 1)%nat ->
    (forall i, (i < 15)%nat ->
       exists objs, managed_objects E i = inr objs /\ no_capable objs) ->
    fatal_startup E a (RuntimeError (no_modem_message 15 2)) (SymlinkTo name)
| ActivationExhausted m s name gid modem err :
    endpoint_acquired E a m s name gid ->
    system_bus_error E = None ->
    (choose_modem E (endpoint_ready m s name gid (initial_world a))).1 = Ret modem ->
    (forall i, (i < 10)%nat ->
       setup_reply E modem.2 i = Some (err i) /\ is_DBusException (err i) = true) ->
    fatal_startup E a (err 9%nat) (SymlinkTo name).

(** The handle is still open. *)
Definition handle_open (w : world) : Prop :=
  exists fd, master_fd w = Some fd /\ fd ∈ open_fds w.

(** What the specification claims of a startup that aborts. *)
Definition releases_before_abort (E : env) (a : alias_state) : Prop :=
  forall e w', main E [] (initial_world a) = (Raise e, w') -> released w'.

(** ** Sample runs *)

Definition sample_modem_path : string := "/org/freedesktop/ModemManager1/Modem/7".

(** Two locations objects, the second one NMEA capable. *)
Definition sample_objects : objects :=
  [("/org/freedesktop/ModemManager1/Modem/0",
    {[ MM_LOC_IFACE := {[ "Capabilities" := 3 ]} ]});
   (sample_modem_path, {[ MM_LOC_IFACE := {[ "Capabilities" := 7 ]} ]})].

(** Two sentences around a line that is none, with stray blanks. *)
Definition sample_payload : pystr :=
  lit "  $GPGGA,1" ++ [LF] ++ lit "junk" ++ [LF] ++ lit " $GPRMC,2 " ++ [CR; LF].

Definition sample_wrong_state : exc :=
  DBusException "org.freedesktop.ModemManager1.Error.Core.WrongState" "not ready".

(** A host where the pair is (3, 4) and everything else is as given. *)
Definition sample_env (group : option Z) (objs : nat -> exc + objects)
    (setup : string -> nat -> option exc) (write : nat -> option (Z * string)) : env :=
  {| euid := 0;
     argv := ["mm-nmea-bridge.py"];
     openpty_reply := inr (3, 4);
     ttyname_reply := inr "/dev/pts/5";
     getgrnam_dialout := group;
     chown_error := None;
     chmod_error := None;
     unlink_error := None;
     symlink_error := None;
     alias_target_exists := false;
     system_bus_error := None;
     managed_objects := objs;
     setup_reply := setup;
     location_reply := fun _ _ => inr {[ GPS_NMEA := sample_payload ]};
     write_error := write;
     gpsdctl_reply := fun _ => (0, false);
     handler_error_ends_run := fun _ => true |}.

(** All is well. *)
Definition quiet_env : env :=
  sample_env (Some 20) (fun _ => inr sample_objects) (fun _ _ => None) (fun _ => None).

(** The second write fails. *)
Definition flaky_env : env :=
  sample_env (Some 20) (fun _ => inr sample_objects) (fun _ _ => None)
             (fun n => if (n =? 1)%nat then Some (5, "Input/output error") else None).

(** No modem ever shows up. *)
Definition no_modem_env : env :=
  sample_env (Some 20) (fun _ => inr []) (fun _ _ => None) (fun _ => None).

(** The modem shows up at the third enumeration. *)
Definition late_modem_env : env :=
  sample_env (Some 20)
             (fun n => inr (if (n <? 2)%nat then [] else sample_objects))
             (fun _ _ => None) (fun _ => None).

(** [Setup] fails twice, then succeeds. *)
Definition slow_modem_env : env :=
  sample_env (Some 20) (fun _ => inr sample_objects)
             (fun _ n => if (n <? 2)%nat then Some sample_wrong_state else None)
             (fun _ => None).

(** The process while it runs: handle 3 open, alias in place. *)
Definition running_world : world :=
  mkWorld (Some 3) [] {[ 0; 1; 2; 3 ]} (SymlinkTo "/dev/pts/5") [] 0 0 0 0 0.

(** A change notification that carries one sentence. *)
Definition sample_changed : gmap string location :=
  {[ "Location" := {[ GPS_NMEA := lit "$GPGGA,1" ]} ]}.

(** ** More observations: registration with gpsd, environments to vary *)

(** [gpsdctl add] is taken as done: return code 0, or the output says that a
    running gpsd was reached. *)
Definition gpsdctl_accepts (r : Z * bool) : bool := (r.1 =? 0) || r.2.

(** The calls of one registration attempt. *)
Definition notify_round : list event := [EvSleep 1; EvGpsdctlAdd].

(** The world after [k] more [gpsdctl add] runs whose calls were [evs]. *)
Definition notified (k : nat) (evs : list event) (w : world) : world :=
  mkWorld (master_fd w) (_last_nmea w) (open_fds w) (alias w) (trace w ++ evs)
          (n_enum w) (n_setup w) (n_get w) (n_write w) (n_gpsdctl w + k).

(** The line [notify_gpsd] logs for a reply it takes as done. *)
Definition notify_message (r : Z * bool) : string :=
  if r.1 =? 0 then "gpsdctl: added " +:+ PTY_LINK
  else "gpsdctl: gpsd already tracking " +:+ PTY_LINK.


(** [E] with other replies of [gpsdctl add]. *)
Definition with_gpsdctl (f : nat -> Z * bool) (E : env) : env :=
  mkEnv (euid E) (argv E) (openpty_reply E) (ttyname_reply E) (getgrnam_dialout E)
        (chown_error E) (chmod_error E) (unlink_error E) (symlink_error E)
        (alias_target_exists E) (system_bus_error E) (managed_objects E)
        (setup_reply E) (location_reply E) (write_error E) f
        (handler_error_ends_run E).

(** [E] with another command line. *)
Definition with_argv (args : list string) (E : env) : env :=
  mkEnv (euid E) args (openpty_reply E) (ttyname_reply E) (getgrnam_dialout E)
        (chown_error E) (chmod_error E) (unlink_error E) (symlink_error E)
        (alias_target_exists E) (system_bus_error E) (managed_objects E)
        (setup_reply E) (location_reply E) (write_error E) (gpsdctl_reply E)
        (handler_error_ends_run E).

(** [E] where [os.unlink] fails with [e]. *)
Definition with_unlink_error (e : exc) (E : env) : env :=
  mkEnv (euid E) (argv E) (openpty_reply E) (ttyname_reply E) (getgrnam_dialout E)
        (chown_error E) (chmod_error E) (Some e) (symlink_error E)
        (alias_target_exists E) (system_bus_error E) (managed_objects E)
        (setup_reply E) (location_reply E) (write_error E) (gpsdctl_reply E)
        (handler_error_ends_run E).

Definition sample_no_reply : exc :=
  DBusException "org.freedesktop.DBus.Error.NoReply" "timed out".

Definition sample_eperm : exc := OSError 1 "Operation not permitted".

(** ** More observations: the reactor *)

(** The endpoint and the count of reads are the same in both worlds: only
    the trace, the snapshot and the count of writes may differ. *)
Definition same_station (w w' : world) : Prop :=
  master_fd w' = master_fd w /\ open_fds w' = open_fds w
  /\ alias w' = alias w /\ n_get w' = n_get w.

(** The timer ticks among the events. *)
Fixpoint ticks (evs : list reactor_event) : nat :=
  match evs with
  | [] => 0
  | TimerTick :: evs' => S (ticks evs')
  | _ :: evs' => ticks evs'
  end.

(** No termination signal among the events. *)
Definition no_signal (evs : list reactor_event) : Prop :=
  Forall (fun ev => match ev with TermSignal _ => False | _ => True end) evs.

(** ** More observations: the characters of a printed index *)

(** Every character of [s] satisfies [P]. *)
Fixpoint all_chars (P : ascii -> bool) (s : string) : bool :=
  match s with
  | EmptyString => true
  | String a s' => P a && all_chars P s'
  end.

(** A decimal digit or the minus sign. *)
Definition is_index_char (a : ascii) : bool :=
  match Ascii7.digit_val a with
  | Some _ => true
  | None => Ascii.eqb a "-"
  end.

(** The path [main] builds for the modem of index [i]. *)
Definition modem_path_of (i : Z) : string :=
  "/org/freedesktop/ModemManager1/Modem/" +:+ pretty i.

(** * Facts *)

(** ** The text functions *)

(** *** Stripping the whole text first changes no forwarded line *)

Lemma linebreak_isspace c : is_linebreak c = true -> py_isspace c = true.
Proof.
  unfold is_linebreak, py_isspace.
  rewrite !orb_true_iff, !andb_true_iff, !N.leb_le, !N.eqb_eq. lia.
Qed.

Lemma keep_cons l ls : keep (l :: ls) = keep [l] ++ keep ls.
Proof.
  unfold keep. simpl. rewrite !filter_cons. rewrite filter_nil.
  destruct (decide (startswith_dollar (strip l) = true)); simpl; reflexivity.
Qed.

Lemma keep_empty_line : keep [[]] = [].
Proof. reflexivity. Qed.

Lemma strip_cons_space c l : py_isspace c = true -> strip (c :: l) = strip l.
Proof. intros H. unfold strip. simpl. rewrite H. reflexivity. Qed.

Lemma lstrip_snoc c l :
  py_isspace c = true ->
  (lstrip (l ++ [c]) = lstrip l ++ [c] /\ lstrip l <> [])
  \/ (lstrip (l ++ [c]) = [] /\ lstrip l = []).
Proof.
  intros H. induction l as [|a l IH]; simpl.
  - rewrite H. right. split; reflexivity.
  - destruct (py_isspace a); [exact IH|]. left. split; [reflexivity|discriminate].
Qed.

Lemma rstrip_snoc_space c l : py_isspace c = true -> rstrip (l ++ [c]) = rstrip l.
Proof.
  intros H. unfold rstrip. rewrite rev_app_distr. simpl. rewrite H. reflexivity.
Qed.

Lemma strip_snoc_space c l : py_isspace c = true -> strip (l ++ [c]) = strip l.
Proof.
  intros H. unfold strip.
  destruct (lstrip_snoc c l H) as [[-> _]|[-> ->]].
  - apply rstrip_snoc_space, H.
  - reflexivity.
Qed.

Lemma gluel_nil ls : gluel [] ls = ls.
Proof. destruct ls; reflexivity. Qed.

Lemma gluel_glue p c ls : gluel p (glue c ls) = gluel (p ++ [c]) ls.
Proof.
  destruct ls as [|l ls]; simpl.
  - destruct p; reflexivity.
  - rewrite <- app_assoc. reflexivity.
Qed.

Lemma alike_keep ls1 ls2 : alike ls1 ls2 -> keep ls1 = keep ls2.
Proof. intros H. specialize (H []). rewrite !gluel_nil in H. exact H. Qed.

Lemma alike_refl ls : alike ls ls.
Proof. intros p. reflexivity. Qed.

Lemma alike_trans ls1 ls2 ls3 : alike ls1 ls2 -> alike ls2 ls3 -> alike ls1 ls3.
Proof. intros H1 H2 p. rewrite H1. apply H2. Qed.

Lemma alike_glue c ls1 ls2 : alike ls1 ls2 -> alike (glue c ls1) (glue c ls2).
Proof. intros H p. rewrite !gluel_glue. apply H. Qed.

Lemma alike_break ls1 ls2 : alike ls1 ls2 -> alike ([] :: ls1) ([] :: ls2).
Proof.
  intros H p. simpl. rewrite (keep_cons _ ls1), (keep_cons _ ls2).
  rewrite (alike_keep _ _ H). reflexivity.
Qed.

Lemma alike_one_space c : py_isspace c = true -> alike (splitlines [c]) [].
Proof.
  intros H p. simpl. destruct (is_linebreak c); simpl.
  - rewrite app_nil_r. destruct p; reflexivity.
  - unfold keep. simpl. rewrite (strip_snoc_space c p H).
    destruct p; [reflexivity|]. reflexivity.
Qed.

(** One trailing whitespace character changes no kept line. *)
Lemma alike_snoc_space c :
  py_isspace c = true ->
  forall n s, (length s <= n)%nat -> alike (splitlines (s ++ [c])) (splitlines s).
Proof.
  intros H n. induction n as [|n IH]; intros s Hlen.
  - destruct s; [|simpl in Hlen; lia]. apply alike_one_space, H.
  - destruct s as [|a s]; [apply alike_one_space, H|].
    simpl in Hlen. change ((a :: s) ++ [c]) with (a :: (s ++ [c])).
    cbn [splitlines]. destruct (is_linebreak a).
    + destruct s as [|d s]; simpl.
      * destruct ((a =? CR)%N && (c =? LF)%N); simpl.
        -- apply alike_refl.
        -- apply alike_break. apply alike_one_space, H.
      * destruct ((a =? CR)%N && (d =? LF)%N).
        -- apply alike_break. apply IH. simpl in Hlen. lia.
        -- apply alike_break. apply (IH (d :: s)). lia.
    + apply alike_glue. apply IH. lia.
Qed.

Lemma alike_app_spaces ws s :
  forallb py_isspace ws = true -> alike (splitlines (s ++ ws)) (splitlines s).
Proof.
  revert s. induction ws as [|c ws IH] using rev_ind; intros s H.
  - rewrite app_nil_r. apply alike_refl.
  - rewrite forallb_app in H. apply andb_true_iff in H as [H1 H2].
    simpl in H2. rewrite andb_true_r in H2.
    rewrite app_assoc. eapply alike_trans.
    + apply (alike_snoc_space c H2 (length (s ++ ws))). lia.
    + apply IH, H1.
Qed.

(** One leading whitespace character changes no kept line. *)
Lemma keep_splitlines_cons_space c s :
  py_isspace c = true -> keep (splitlines (c :: s)) = keep (splitlines s).
Proof.
  intros H. cbn [splitlines]. destruct (is_linebreak c) eqn:Hb.
  - rewrite keep_cons, keep_empty_line. simpl.
    destruct s as [|d s]; [reflexivity|].
    destruct ((c =? CR)%N && (d =? LF)%N) eqn:Hp; [|reflexivity].
    apply andb_true_iff in Hp as [_ Hd]. apply N.eqb_eq in Hd. subst d.
    cbn [splitlines]. change (is_linebreak LF) with true. cbn iota.
    rewrite (keep_cons []), keep_empty_line. simpl.
    destruct s as [|e s]; [reflexivity|].
    change ((LF =? CR)%N) with false. reflexivity.
  - destruct (splitlines s) as [|l ls]; simpl.
    + unfold keep. simpl. rewrite (strip_cons_space c [] H). reflexivity.
    + rewrite (keep_cons (c :: l)), (keep_cons l). f_equal.
      unfold keep. simpl. rewrite (strip_cons_space c l H). reflexivity.
Qed.

Lemma keep_splitlines_lstrip s : keep (splitlines (lstrip s)) = keep (splitlines s).
Proof.
  induction s as [|c s IH]; [reflexivity|]. simpl.
  destruct (py_isspace c) eqn:H; [|reflexivity].
  rewrite IH. symmetry. apply keep_splitlines_cons_space, H.
Qed.

Lemma lstrip_decomp s :
  exists ws, s = ws ++ lstrip s /\ forallb py_isspace ws = true.
Proof.
  induction s as [|c s (ws & E & H)]; simpl.
  - exists []. split; reflexivity.
  - destruct (py_isspace c) eqn:Hc.
    + exists (c :: ws). simpl. rewrite Hc, H. split; [f_equal; exact E|reflexivity].
    + exists []. split; reflexivity.
Qed.

Lemma rstrip_decomp s :
  exists ws, s = rstrip s ++ ws /\ forallb py_isspace ws = true.
Proof.
  destruct (lstrip_decomp (rev s)) as (ws & E & H).
  exists (rev ws). split.
  - unfold rstrip. rewrite <- rev_app_distr, <- E, rev_involutive. reflexivity.
  - rewrite forallb_forall in *. intros x Hx. apply H. apply in_rev. exact Hx.
Qed.

Lemma keep_splitlines_rstrip s : keep (splitlines (rstrip s)) = keep (splitlines s).
Proof.
  destruct (rstrip_decomp s) as (ws & E & H).
  symmetry. rewrite E at 1. apply alike_keep, alike_app_spaces, H.
Qed.

(** The lines the source computes are the lines the specification words. *)
Lemma nmea_lines_spec sentences : nmea_lines sentences = spec_lines sentences.
Proof.
  unfold nmea_lines, spec_lines. fold (keep (splitlines (strip sentences))).
  fold (keep (splitlines sentences)). unfold strip.
  rewrite keep_splitlines_rstrip. apply keep_splitlines_lstrip.
Qed.

(** *** The characters of a kept line are characters of the text *)

Lemma lstrip_Forall (P : N -> Prop) s : Forall P s -> Forall P (lstrip s).
Proof.
  induction 1 as [|c s Hc Hs IH]; simpl; [constructor|].
  destruct (py_isspace c); [exact IH|]. constructor; assumption.
Qed.

Lemma strip_Forall (P : N -> Prop) s : Forall P s -> Forall P (strip s).
Proof.
  intros H. unfold strip, rstrip.
  apply Forall_rev, lstrip_Forall, Forall_rev, lstrip_Forall, H.
Qed.

Lemma glue_Forall (P : N -> Prop) c ls :
  P c -> Forall (Forall P) ls -> Forall (Forall P) (glue c ls).
Proof.
  intros Hc H. destruct H as [|l ls Hl Hls]; simpl.
  - repeat constructor. exact Hc.
  - constructor; [constructor; assumption|assumption].
Qed.

Lemma splitlines_Forall (P : N -> Prop) :
  forall n s, (length s <= n)%nat -> Forall P s -> Forall (Forall P) (splitlines s).
Proof.
  induction n as [|n IH]; intros s Hlen H.
  - destruct s; [constructor|simpl in Hlen; lia].
  - destruct H as [|c s Hc Hs]; [constructor|].
    simpl in Hlen. cbn [splitlines]. destruct (is_linebreak c).
    + constructor; [constructor|].
      destruct Hs as [|d s Hd Hs]; [constructor|].
      simpl in Hlen. destruct ((c =? CR)%N && (d =? LF)%N).
      * apply IH; [lia|exact Hs].
      * apply IH; [simpl; lia|constructor; assumption].
    + apply glue_Forall; [exact Hc|]. apply IH; [lia|exact Hs].
Qed.

Lemma forallb_encodable s : encodable_str s -> forallb encodable s = true.
Proof.
  induction 1 as [|c s Hc Hs IH]; simpl; [reflexivity|].
  rewrite Hc, IH. reflexivity.
Qed.

Lemma encode_line_ok l :
  encodable_str l -> encode (l ++ crlf) = Some (utf8 (l ++ crlf)).
Proof.
  intros H. unfold encode. rewrite forallb_encodable; [reflexivity|].
  apply Forall_app. split; [exact H|]. repeat constructor.
Qed.

Lemma raw_lines_encodable s :
  encodable_str s -> Forall encodable_str (splitlines (strip s)).
Proof.
  intros H. apply (splitlines_Forall _ (length (strip s))); [lia|].
  apply strip_Forall, H.
Qed.

(** ** The forwarding primitive, line by line *)

Section Forwarding.

Variable E : env.

Lemma forward_line_master_fd fd w line :
  master_fd (forward_line E fd w line) = master_fd w.
Proof.
  unfold forward_line. destruct (decide _); [|reflexivity].
  destruct (write_error E _) as [[? ?]|]; reflexivity.
Qed.

Lemma forward_lines_master_fd fd lines w :
  master_fd (fold_left (forward_line E fd) lines w) = master_fd w.
Proof.
  revert w. induction lines as [|l ls IH]; intros w; simpl; [reflexivity|].
  rewrite IH. apply forward_line_master_fd.
Qed.

Lemma forward_line_kept fd w line :
  _last_nmea (forward_line E fd w line) = _last_nmea w
  /\ open_fds (forward_line E fd w line) = open_fds w
  /\ alias (forward_line E fd w line) = alias w.
Proof.
  unfold forward_line. destruct (decide _); [|auto].
  destruct (write_error E _) as [[? ?]|]; auto.
Qed.

Lemma forward_lines_kept fd lines w :
  _last_nmea (fold_left (forward_line E fd) lines w) = _last_nmea w
  /\ open_fds (fold_left (forward_line E fd) lines w) = open_fds w
  /\ alias (fold_left (forward_line E fd) lines w) = alias w.
Proof.
  revert w. induction lines as [|l ls IH]; intros w; simpl; [auto|].
  destruct (IH (forward_line E fd w l)) as (-> & -> & ->).
  apply forward_line_kept.
Qed.

(** One pass of the loop body on a line that is kept. *)
Lemma write_nmea_body fd w line :
  master_fd w = Some fd ->
  encodable_str line ->
  try_except
    (data <- encode_line line ;; fd <- gets master_fd ;; os_write E fd data)
    is_OSError
    (fun exc => log ("PTY write error: " +:+ exc_str exc)) w
  = (Ret tt, forward_line E fd w line).
Proof.
  intros Hfd Henc. unfold try_except, bind, encode_line, gets, os_write, forward_line.
  rewrite (encode_line_ok line Henc). simpl. rewrite Hfd.
  destruct (decide (fd ∈ open_fds w)); [|reflexivity].
  destruct (write_error E (n_write w)) as [[errno msg]|]; reflexivity.
Qed.

Lemma write_nmea_loop fd raw w :
  master_fd w = Some fd ->
  Forall encodable_str raw ->
  for_each raw (fun line =>
    let line := strip line in
    if startswith_dollar line then
      try_except
        (data <- encode_line line ;; fd <- gets master_fd ;; os_write E fd data)
        is_OSError
        (fun exc => log ("PTY write error: " +:+ exc_str exc))
    else ret tt) w
  = (Ret tt, fold_left (forward_line E fd) (keep raw) w).
Proof.
  intros Hfd Henc. revert w Hfd.
  induction Henc as [|l raw Hl Hraw IH]; intros w Hfd; [reflexivity|].
  cbn [for_each]. unfold bind at 1. rewrite keep_cons. cbv zeta.
  unfold keep at 1. simpl map. rewrite filter_cons, filter_nil.
  destruct (startswith_dollar (strip l)) eqn:Hd.
  - rewrite (write_nmea_body fd w (strip l) Hfd (strip_Forall _ _ Hl)).
    rewrite decide_True by reflexivity. simpl.
    apply IH. rewrite forward_line_master_fd. exact Hfd.
  - rewrite decide_False by discriminate. simpl. apply IH, Hfd.
Qed.

(** [write_nmea] returns, and leaves the world [forward_line] builds line by
    line over the lines it keeps. *)
Lemma write_nmea_run fd sentences w :
  master_fd w = Some fd ->
  encodable_str sentences ->
  write_nmea E sentences w
  = (Ret tt, fold_left (forward_line E fd) (nmea_lines sentences) w).
Proof.
  intros Hfd Henc. unfold write_nmea.
  apply (write_nmea_loop fd _ w Hfd). apply raw_lines_encodable, Henc.
Qed.

Lemma attempted_app t1 t2 : attempted (t1 ++ t2) = attempted t1 ++ attempted t2.
Proof. apply omap_app. Qed.

Lemma written_app t1 t2 : written (t1 ++ t2) = written t1 ++ written t2.
Proof. apply omap_app. Qed.

Lemma forward_line_attempted fd w line :
  attempted (trace (forward_line E fd w line))
  = attempted (trace w) ++ [(fd, line_data line)].
Proof.
  unfold forward_line. destruct (decide _).
  - destruct (write_error E _) as [[? ?]|]; simpl;
      rewrite ?attempted_app; simpl; rewrite ?app_nil_r; reflexivity.
  - simpl. rewrite !attempted_app. simpl. rewrite app_nil_r. reflexivity.
Qed.

Lemma forward_lines_attempted fd lines w :
  attempted (trace (fold_left (forward_line E fd) lines w))
  = attempted (trace w) ++ map (fun l => (fd, line_data l)) lines.
Proof.
  revert w. induction lines as [|l ls IH]; intros w; simpl.
  - rewrite app_nil_r. reflexivity.
  - rewrite IH, forward_line_attempted, <- app_assoc. reflexivity.
Qed.

(** When no write fails, the trace grows by the successful writes alone. *)
Lemma forward_lines_clean fd lines w :
  fd ∈ open_fds w ->
  (forall n, write_error E n = None) ->
  trace (fold_left (forward_line E fd) lines w)
  = trace w ++ map (fun l => EvOsWrite fd (line_data l) None) lines.
Proof.
  intros Hopen Hok. revert w Hopen.
  induction lines as [|l ls IH]; intros w Hopen; simpl.
  - rewrite app_nil_r. reflexivity.
  - assert (Hstep : forward_line E fd w l
                    = add_event (EvOsWrite fd (line_data l) None) (next_write w)).
    { unfold forward_line. rewrite decide_True by exact Hopen.
      rewrite Hok. reflexivity. }
    rewrite Hstep, IH by exact Hopen. simpl. rewrite <- app_assoc. reflexivity.
Qed.

Lemma forward_line_outcome fd w line :
  exists evs, line_outcome fd line evs
              /\ trace (forward_line E fd w line) = trace w ++ evs.
Proof.
  unfold forward_line. destruct (decide _).
  - destruct (write_error E _) as [[errno msg]|]; simpl.
    + eexists. split; [right; eauto|]. rewrite <- app_assoc. reflexivity.
    + eexists. split; [left; reflexivity|reflexivity].
  - eexists. split; [right; eauto|]. simpl. rewrite <- app_assoc. reflexivity.
Qed.

Lemma forward_lines_outcome fd lines w :
  exists chunks, Forall2 (line_outcome fd) lines chunks
                 /\ trace (fold_left (forward_line E fd) lines w)
                    = trace w ++ concat chunks.
Proof.
  revert w. induction lines as [|l ls IH]; intros w; simpl.
  - exists []. split; [constructor|]. simpl. rewrite app_nil_r. reflexivity.
  - destruct (forward_line_outcome fd w l) as (evs & Hevs & Ht).
    destruct (IH (forward_line E fd w l)) as (chunks & Hc & Hts).
    exists (evs :: chunks). split; [constructor; assumption|].
    rewrite Hts, Ht. simpl. rewrite <- app_assoc. reflexivity.
Qed.

(** On a closed handle every write fails with [EBADF]. *)
Lemma forward_lines_closed fd lines w :
  fd ∉ open_fds w ->
  trace (fold_left (forward_line E fd) lines w)
  = trace w ++ concat (map (fun l =>
      [EvOsWrite fd (line_data l) (Some EBADF);
       EvLog (write_error_message EBADF "Bad file descriptor")]) lines).
Proof.
  intros Hclosed. revert w Hclosed.
  induction lines as [|l ls IH]; intros w Hclosed; simpl.
  - rewrite app_nil_r. reflexivity.
  - assert (Hstep : forward_line E fd w l
      = add_event (EvLog (write_error_message EBADF "Bad file descriptor"))
          (add_event (EvOsWrite fd (line_data l) (Some EBADF)) w)).
    { unfold forward_line. rewrite decide_False by exact Hclosed. reflexivity. }
    rewrite Hstep, IH by exact Hclosed. simpl. rewrite <- !app_assoc. reflexivity.
Qed.

End Forwarding.

(** ** Discovery, attempt by attempt *)

Section Discovery.

Variable E : env.

Lemma find_in_objects_none objs w :
  no_capable objs -> find_in_objects objs w = (Ret None, w).
Proof.
  induction 1 as [|[path ifs] objs Hc Hobjs IH]; simpl; [reflexivity|].
  simpl in Hc. rewrite Hc. exact IH.
Qed.

Lemma find_in_objects_first pre path ifs post index w :
  no_capable pre ->
  capable ifs = true ->
  Ascii7.py_int (Ascii7.last_segment path) = Some index ->
  find_in_objects (pre ++ (path, ifs) :: post) w = (Ret (Some (index, path)), w).
Proof.
  intros Hpre Hcap Hint.
  induction Hpre as [|[p i] pre Hc Hpre IH]; simpl.
  - rewrite Hcap, Hint. reflexivity.
  - simpl in Hc. rewrite Hc. exact IH.
Qed.

Lemma missed_missed k1 k2 evs1 evs2 w :
  missed k2 evs2 (missed k1 evs1 w) = missed (k1 + k2) (evs1 ++ evs2) w.
Proof.
  unfold missed. simpl. rewrite <- app_assoc, <- Nat.add_assoc. reflexivity.
Qed.

Lemma missed_zero w : missed 0 [] w = w.
Proof.
  destruct w. unfold missed. simpl. rewrite app_nil_r, Nat.add_0_r. reflexivity.
Qed.

(** [k] attempts that find nothing leave the loop where it was, [k]
    iterations later. *)
Lemma find_gps_modem_misses retries delay :
  0 <= delay ->
  forall k n attempt w,
    (forall i, (i < k)%nat ->
       exists objs, managed_objects E (n_enum w + i) = inr objs /\ no_capable objs) ->
    find_gps_modem_from E (k + n) attempt retries delay w
    = find_gps_modem_from E n (attempt + Z.of_nat k) retries delay
        (missed k (miss_events retries delay attempt k) w).
Proof.
  intros Hdelay. induction k as [|k IH]; intros n attempt w Hmiss.
  - simpl. rewrite Z.add_0_r, missed_zero. reflexivity.
  - destruct (Hmiss 0%nat) as (objs & Hobjs & Hnone); [lia|].
    rewrite Nat.add_0_r in Hobjs.
    change (S k + n)%nat with (S (k + n)). cbn [find_gps_modem_from].
    unfold bind at 1. unfold GetManagedObjects. rewrite Hobjs.
    unfold bind at 1. rewrite (find_in_objects_none objs _ Hnone).
    set (w1 := add_event EvGetManagedObjects (next_enum w)).
    assert (Hstep : forall (m : M (Z * string)),
      bind (if attempt <? retries - 1
            then bind (log (retry_message delay attempt retries))
                      (fun _ => time_sleep delay)
            else ret tt) (fun _ => m) w1
      = m (missed 1 (EvGetManagedObjects ::
             (if attempt <? retries - 1
              then [EvLog (retry_message delay attempt retries); EvSleep delay]
              else [])) w)).
    { intros m. subst w1.
      assert (Hd : (delay <? 0) = false) by (apply Z.ltb_ge; exact Hdelay).
      destruct (attempt <? retries - 1);
        unfold bind, log, time_sleep, ret; rewrite ?Hd;
        unfold emit, modify, missed, add_event, next_enum; simpl;
        rewrite <- ?app_assoc, Nat.add_1_r; reflexivity. }
    rewrite Hstep. rewrite IH.
    + rewrite missed_missed. simpl miss_events.
      replace (attempt + 1 + Z.of_nat k) with (attempt + Z.of_nat (S k)) by lia.
      reflexivity.
    + intros i Hi. destruct (Hmiss (S i)) as (o & Ho & Hn); [lia|].
      exists o. split; [|exact Hn]. simpl. rewrite <- Ho. f_equal. lia.
Qed.

(** The calls of the attempts [attempt .. retries - 1] when all find nothing. *)
Lemma miss_events_exhausted retries delay :
  forall k attempt,
    attempt + Z.of_nat (S k) = retries ->
    miss_events retries delay attempt (S k)
    = flat_map (fun i => [EvGetManagedObjects;
                          EvLog (retry_message delay i retries);
                          EvSleep delay])
               (seqZ attempt (Z.of_nat k))
      ++ [EvGetManagedObjects].
Proof.
  induction k as [|k IH]; intros attempt Hsum.
  - simpl. replace (attempt <? retries - 1) with false; [reflexivity|].
    symmetry. apply Z.ltb_ge. lia.
  - change (miss_events retries delay attempt (S (S k)))
      with (EvGetManagedObjects
              :: (if attempt <? retries - 1
                  then [EvLog (retry_message delay attempt retries); EvSleep delay]
                  else [])
              ++ miss_events retries delay (attempt + 1) (S k)).
    rewrite IH by lia.
    replace (attempt <? retries - 1) with true
      by (symmetry; apply Z.ltb_lt; lia).
    rewrite (seqZ_cons attempt (Z.of_nat (S k))) by lia.
    replace (Z.pred (Z.of_nat (S k))) with (Z.of_nat k) by lia.
    reflexivity.
Qed.

Lemma exhausted_trace_miss_events retries delay :
  0 <= retries ->
  miss_events retries delay 0 (Z.to_nat retries) = exhausted_trace retries delay.
Proof.
  intros Hr. unfold exhausted_trace. destruct (Z.eqb_spec retries 0) as [->|Hne].
  - reflexivity.
  - destruct (Z.to_nat retries) as [|k] eqn:Hk; [lia|].
    rewrite miss_events_exhausted by lia.
    replace (retries - 1) with (Z.of_nat k) by lia. reflexivity.
Qed.

(** A discovery whose every attempt finds nothing. *)
Lemma find_gps_modem_exhausted retries delay w :
  0 <= retries -> 0 <= delay ->
  (forall i, (i < Z.to_nat retries)%nat ->
     exists objs, managed_objects E (n_enum w + i) = inr objs /\ no_capable objs) ->
  find_gps_modem E retries delay w
  = (Raise (RuntimeError (no_modem_message retries delay)),
     missed (Z.to_nat retries) (exhausted_trace retries delay) w).
Proof.
  intros Hr Hd Hmiss. unfold find_gps_modem.
  rewrite <- (Nat.add_0_r (Z.to_nat retries)) at 1.
  rewrite (find_gps_modem_misses retries delay Hd _ 0%nat 0 w Hmiss).
  rewrite exhausted_trace_miss_events by exact Hr. reflexivity.
Qed.

Lemma enumerations_app t1 t2 :
  enumerations (t1 ++ t2) = (enumerations t1 + enumerations t2)%nat.
Proof. unfold enumerations. rewrite omap_app, length_app. reflexivity. Qed.

Lemma sleeps_app t1 t2 : sleeps (t1 ++ t2) = sleeps t1 ++ sleeps t2.
Proof. apply omap_app. Qed.

Lemma rounds_enumerations delay retries l :
  enumerations (flat_map (fun i => [EvGetManagedObjects;
                                    EvLog (retry_message delay i retries);
                                    EvSleep delay]) l)
  = length l.
Proof.
  induction l as [|i l IH]; [reflexivity|].
  cbn [flat_map]. rewrite enumerations_app, IH. reflexivity.
Qed.

Lemma rounds_sleeps delay retries l :
  sleeps (flat_map (fun i => [EvGetManagedObjects;
                              EvLog (retry_message delay i retries);
                              EvSleep delay]) l)
  = replicate (length l) delay.
Proof.
  induction l as [|i l IH]; [reflexivity|].
  cbn [flat_map]. rewrite sleeps_app, IH. reflexivity.
Qed.

Lemma exhausted_enumerations retries delay :
  0 <= retries -> enumerations (exhausted_trace retries delay) = Z.to_nat retries.
Proof.
  intros Hr. unfold exhausted_trace. destruct (Z.eqb_spec retries 0) as [->|Hne].
  - reflexivity.
  - rewrite enumerations_app, rounds_enumerations, length_seqZ.
    change (enumerations [EvGetManagedObjects]) with 1%nat. lia.
Qed.

Lemma exhausted_sleeps retries delay :
  1 <= retries ->
  sleeps (exhausted_trace retries delay) = replicate (Z.to_nat (retries - 1)) delay.
Proof.
  intros Hr. unfold exhausted_trace. destruct (Z.eqb_spec retries 0) as [->|Hne]; [lia|].
  rewrite sleeps_app, rounds_sleeps, length_seqZ. simpl. apply app_nil_r.
Qed.

Lemma total_replicate n d : total (replicate n d) = Z.of_nat n * d.
Proof.
  induction n as [|n IH]; [reflexivity|].
  change (total (replicate (S n) d)) with (d + total (replicate n d)).
  rewrite IH. lia.
Qed.

End Discovery.

(** ** Computations that never exit, computations that leave a relation *)

Section NoExit.

Lemma no_exit_ret {A} (a : A) : no_exit (ret a).
Proof. intros w c. discriminate. Qed.

Lemma no_exit_raise {A} (e : exc) : no_exit (@raise A e).
Proof. intros w c. discriminate. Qed.

Lemma no_exit_modify f : no_exit (modify f).
Proof. intros w c. discriminate. Qed.

Lemma no_exit_gets {A} (f : world -> A) : no_exit (gets f).
Proof. intros w c. discriminate. Qed.

Lemma no_exit_bind {A B} (m : M A) (k : A -> M B) :
  no_exit m -> (forall a, no_exit (k a)) -> no_exit (bind m k).
Proof.
  intros Hm Hk w c. unfold bind. specialize (Hm w).
  destruct (m w) as [[a|e|c'] w']; simpl in *.
  - apply Hk.
  - discriminate.
  - exfalso. apply (Hm c'). reflexivity.
Qed.

Lemma no_exit_try {A} (m : M A) catches h :
  no_exit m -> (forall e, no_exit (h e)) -> no_exit (try_except m catches h).
Proof.
  intros Hm Hh w c. unfold try_except. specialize (Hm w).
  destruct (m w) as [[a|e|c'] w']; simpl in *.
  - discriminate.
  - destruct (catches e); [apply Hh|discriminate].
  - exfalso. apply (Hm c'). reflexivity.
Qed.

Lemma no_exit_for_each {A} (l : list A) body :
  (forall x, no_exit (body x)) -> no_exit (for_each l body).
Proof.
  intros Hb. induction l as [|x l IH]; simpl.
  - apply no_exit_ret.
  - apply no_exit_bind; [apply Hb|intros _; exact IH].
Qed.

Lemma no_exit_os_write E fd data : no_exit (os_write E fd data).
Proof.
  intros w c. unfold os_write. destruct fd as [fd|]; [|discriminate].
  destruct (decide _); [|discriminate].
  destruct (write_error E _) as [[? ?]|]; discriminate.
Qed.

Lemma no_exit_encode_line line : no_exit (encode_line line).
Proof.
  unfold encode_line. destruct (encode _); [apply no_exit_ret|apply no_exit_raise].
Qed.

Lemma no_exit_write_nmea E sentences : no_exit (write_nmea E sentences).
Proof.
  unfold write_nmea. apply no_exit_for_each. intros line. cbv zeta.
  destruct (startswith_dollar _); [|apply no_exit_ret].
  apply no_exit_try.
  - apply no_exit_bind; [apply no_exit_encode_line|]. intros data.
    apply no_exit_bind; [apply no_exit_gets|]. intros fd. apply no_exit_os_write.
  - intros e. apply no_exit_modify.
Qed.

Lemma no_exit_props_iface_Get E path : no_exit (props_iface_Get E path).
Proof.
  intros w c. unfold props_iface_Get.
  destruct (location_reply E path _); discriminate.
Qed.

End NoExit.

Section Preserves.

Variable R : world -> world -> Prop.
Hypothesis R_refl : forall w, R w w.
Hypothesis R_trans : forall w1 w2 w3, R w1 w2 -> R w2 w3 -> R w1 w3.

Lemma preserves_ret {A} (a : A) : preserves R (ret a).
Proof. intros w. apply R_refl. Qed.

Lemma preserves_raise {A} (e : exc) : preserves R (@raise A e).
Proof. intros w. apply R_refl. Qed.

Lemma preserves_sys_exit {A} (c : Z) : preserves R (@sys_exit A c).
Proof. intros w. apply R_refl. Qed.

Lemma preserves_gets {A} (f : world -> A) : preserves R (gets f).
Proof. intros w. apply R_refl. Qed.

Lemma preserves_modify f : (forall w, R w (f w)) -> preserves R (modify f).
Proof. intros H w. apply H. Qed.

Lemma preserves_bind {A B} (m : M A) (k : A -> M B) :
  preserves R m -> (forall a, preserves R (k a)) -> preserves R (bind m k).
Proof.
  intros Hm Hk w. unfold bind. specialize (Hm w).
  destruct (m w) as [[a|e|c] w']; simpl in *; [|exact Hm|exact Hm].
  eapply R_trans; [exact Hm|apply Hk].
Qed.

Lemma preserves_try {A} (m : M A) catches h :
  preserves R m -> (forall e, preserves R (h e)) -> preserves R (try_except m catches h).
Proof.
  intros Hm Hh w. unfold try_except. specialize (Hm w).
  destruct (m w) as [[a|e|c] w']; simpl in *; [exact Hm| |exact Hm].
  destruct (catches e); [|exact Hm].
  eapply R_trans; [exact Hm|apply Hh].
Qed.

Lemma preserves_for_each {A} (l : list A) body :
  (forall x, preserves R (body x)) -> preserves R (for_each l body).
Proof.
  intros Hb. induction l as [|x l IH]; simpl.
  - apply preserves_ret.
  - apply preserves_bind; [apply Hb|intros _; exact IH].
Qed.

Lemma preserves_if {A} (b : bool) (m1 m2 : M A) :
  preserves R m1 -> preserves R m2 -> preserves R (if b then m1 else m2).
Proof. destruct b; auto. Qed.

End Preserves.

(** ** The snapshot under both feeds *)

Lemma same_snapshot_refl w : same_snapshot w w.
Proof. reflexivity. Qed.

Lemma same_snapshot_trans w1 w2 w3 :
  same_snapshot w1 w2 -> same_snapshot w2 w3 -> same_snapshot w1 w3.
Proof. unfold same_snapshot. congruence. Qed.

Lemma same_endpoint_refl w : same_endpoint w w.
Proof. repeat split. Qed.

Lemma same_endpoint_trans w1 w2 w3 :
  same_endpoint w1 w2 -> same_endpoint w2 w3 -> same_endpoint w1 w3.
Proof. unfold same_endpoint. intros (?&?&?&?) (?&?&?&?). repeat split; congruence. Qed.

Create HintDb worlds.
#[local] Hint Resolve same_snapshot_refl same_snapshot_trans
  same_endpoint_refl same_endpoint_trans : worlds.

(** A call that is one case analysis on the replies leaves alone what it
    does not assign. *)
Ltac by_cases :=
  let w := fresh "w" in
  intros w;
  repeat match goal with
         | |- context [match ?x with _ => _ end] => destruct x; simpl
         end;
  repeat split; reflexivity.

Section Snapshot.

Variable E : env.

Lemma snapshot_emit e : preserves same_snapshot (emit e).
Proof. by_cases. Qed.

Lemma snapshot_os_write fd data : preserves same_snapshot (os_write E fd data).
Proof. unfold os_write. by_cases. Qed.

Lemma snapshot_os_close fd : preserves same_snapshot (os_close fd).
Proof. unfold os_close. by_cases. Qed.

Lemma snapshot_os_unlink : preserves same_snapshot (os_unlink E).
Proof. unfold os_unlink. by_cases. Qed.

Lemma snapshot_Setup path sources flag :
  preserves same_snapshot (location_iface_Setup E path sources flag).
Proof. unfold location_iface_Setup. by_cases. Qed.

Lemma snapshot_Get path : preserves same_snapshot (props_iface_Get E path).
Proof. unfold props_iface_Get. by_cases. Qed.

Lemma snapshot_encode_line line : preserves same_snapshot (encode_line line).
Proof. unfold encode_line. by_cases. Qed.

(** [write_nmea] never assigns the snapshot, however it ends. *)
Lemma snapshot_write_nmea sentences : preserves same_snapshot (write_nmea E sentences).
Proof.
  unfold write_nmea. apply preserves_for_each; eauto with worlds.
  intros line. cbv zeta. apply preserves_if; [|apply preserves_ret; eauto with worlds].
  apply preserves_try; eauto with worlds.
  - apply preserves_bind; eauto with worlds; [apply snapshot_encode_line|].
    intros data. apply preserves_bind; eauto with worlds.
    + apply preserves_gets; eauto with worlds.
    + intros fd. apply snapshot_os_write.
  - intros e. apply snapshot_emit.
Qed.

(** The event feed never assigns the snapshot. *)
Lemma snapshot_on_properties_changed iface changed :
  preserves same_snapshot (on_properties_changed E iface changed).
Proof.
  unfold on_properties_changed.
  apply preserves_if; [apply preserves_ret; eauto with worlds|]. cbv zeta.
  apply preserves_if; [apply snapshot_write_nmea|apply preserves_ret; eauto with worlds].
Qed.

Lemma snapshot_cleanup path : preserves same_snapshot (cleanup E path).
Proof.
  unfold cleanup.
  apply preserves_bind; eauto with worlds; [apply snapshot_emit|]. intros _.
  apply preserves_bind; eauto with worlds.
  { apply preserves_try; eauto with worlds; [apply snapshot_Setup|].
    intros e. apply preserves_ret; eauto with worlds. }
  intros _. apply preserves_bind; eauto with worlds.
  { apply preserves_gets; eauto with worlds. }
  intros is_link. apply preserves_bind; eauto with worlds.
  { apply preserves_if; [apply snapshot_os_unlink|apply preserves_ret; eauto with worlds]. }
  intros _. apply preserves_bind; eauto with worlds.
  { apply preserves_gets; eauto with worlds. }
  intros fd. apply preserves_bind; eauto with worlds.
  - destruct fd; [apply snapshot_os_close|apply preserves_ret; eauto with worlds].
  - intros _. apply preserves_sys_exit; eauto with worlds.
Qed.

Lemma poll_nmea_body_no_exit path :
  no_exit (try_except
    (loc <- props_iface_Get E path ;;
     let nmea := nmea_of loc in
     if nonempty nmea then
       write_nmea E nmea ;;
       modify (set_last_nmea nmea)
     else ret tt)
    is_Exception
    (fun exc => log ("Poll error: " +:+ exc_str exc))).
Proof.
  apply no_exit_try.
  - apply no_exit_bind; [apply no_exit_props_iface_Get|]. intros loc. cbv zeta.
    destruct (nonempty _); [|apply no_exit_ret].
    apply no_exit_bind; [apply no_exit_write_nmea|]. intros _. apply no_exit_modify.
  - intros e. apply no_exit_modify.
Qed.

Lemma poll_nmea_returns_true path w : (poll_nmea E path w).1 = Ret true.
Proof.
  unfold poll_nmea. pose proof (poll_nmea_body_no_exit path w) as Hne.
  unfold bind at 1.
  destruct (try_except _ _ _ w) as [[u|e|c] w'] eqn:Hrun.
  - reflexivity.
  - exfalso. unfold try_except in Hrun.
    destruct (bind _ _ w) as [[u|e'|c] w'']; try discriminate.
  - exfalso. apply (Hne c). reflexivity.
Qed.

Lemma poll_nmea_read_error path w e :
  location_reply E path (n_get w) = inl e ->
  (poll_nmea E path w).2 = add_event (EvLog ("Poll error: " +:+ exc_str e)) (got path w).
Proof.
  intros H. unfold poll_nmea, bind, try_except, props_iface_Get. rewrite H. reflexivity.
Qed.

Lemma poll_nmea_empty path w loc :
  location_reply E path (n_get w) = inr loc ->
  nmea_of loc = [] ->
  (poll_nmea E path w).2 = got path w.
Proof.
  intros H Hempty. unfold poll_nmea, bind, try_except, props_iface_Get.
  rewrite H, Hempty. reflexivity.
Qed.

Lemma poll_nmea_forwards path w loc fd :
  location_reply E path (n_get w) = inr loc ->
  nmea_of loc <> [] ->
  master_fd w = Some fd ->
  encodable_str (nmea_of loc) ->
  (poll_nmea E path w).2
  = set_last_nmea (nmea_of loc)
      (fold_left (forward_line E fd) (nmea_lines (nmea_of loc)) (got path w)).
Proof.
  intros H Hne Hfd Henc. unfold poll_nmea, bind, try_except, props_iface_Get.
  rewrite H. cbv zeta. destruct (nmea_of loc) as [|c s] eqn:Hn; [congruence|].
  cbn [nonempty]. fold (got path w).
  rewrite (write_nmea_run E fd (c :: s) (got path w) Hfd Henc). reflexivity.
Qed.

(** After a tick the snapshot is what it was, or the non-empty payload the
    tick has just read. *)
Lemma poll_nmea_snapshot path w :
  _last_nmea (poll_nmea E path w).2 = _last_nmea w
  \/ exists loc, location_reply E path (n_get w) = inr loc
                 /\ nmea_of loc <> []
                 /\ _last_nmea (poll_nmea E path w).2 = nmea_of loc.
Proof.
  unfold poll_nmea, bind, try_except, props_iface_Get.
  destruct (location_reply E path (n_get w)) as [e|loc] eqn:Hreply; simpl.
  - left. reflexivity.
  - destruct (nmea_of loc) as [|c s] eqn:Hn; simpl; [left; reflexivity|].
    pose proof (snapshot_write_nmea (c :: s) (got path w)) as Hsnap.
    unfold same_snapshot in Hsnap. fold (got path w).
    destruct (write_nmea E (c :: s) (got path w)) as [[u|e|c'] w'] eqn:Hrun;
      simpl in *.
    + right. exists loc. rewrite Hn.
      split; [reflexivity|split; [discriminate|reflexivity]].
    + left. exact Hsnap.
    + left. exact Hsnap.
Qed.

(** Once set, the snapshot is never empty again, whatever the reactor
    dispatches. *)
Lemma mainloop_snapshot_nonempty path evs :
  forall armed w,
    _last_nmea w <> [] ->
    _last_nmea (mainloop_run E path armed evs w).2 <> [].
Proof.
  induction evs as [|ev evs IH]; intros armed w Hw; [exact Hw|].
  destruct ev as [|iface changed|signum]; cbn [mainloop_run].
  - destruct armed; [|apply IH, Hw].
    unfold bind. pose proof (poll_nmea_returns_true path w) as Hret.
    pose proof (poll_nmea_snapshot path w) as Hsnap.
    destruct (poll_nmea E path w) as [[b|e|c] w'] eqn:Hrun; simpl in *;
      try discriminate.
    apply IH. destruct Hsnap as [->|(loc & _ & Hne & ->)]; assumption.
  - unfold bind.
    assert (Hsnap : preserves same_snapshot
              (try_except (on_properties_changed E iface changed)
                          is_Exception (fun _ => ret tt))).
    { apply preserves_try; eauto with worlds.
      - apply snapshot_on_properties_changed.
      - intros e. apply preserves_ret; eauto with worlds. }
    specialize (Hsnap w).
    unfold same_snapshot in Hsnap.
    destruct (try_except _ _ _ w) as [[u|e|c] w']; simpl in *;
      try apply IH; rewrite Hsnap; exact Hw.
  - unfold bind at 1. unfold emit, modify.
    unfold bind.
    assert (Hsnap : preserves same_snapshot
              (try_except (cleanup E path)
                          (fun e => negb (handler_error_ends_run E e))
                          (fun _ => ret tt))).
    { apply preserves_try; eauto with worlds.
      - apply snapshot_cleanup.
      - intros e. apply preserves_ret; eauto with worlds. }
    specialize (Hsnap (add_event (EvSignalHandler signum) w)).
    unfold same_snapshot in Hsnap.
    destruct (try_except _ _ _ _) as [[u|e|c] w']; simpl in *;
      try apply IH; rewrite Hsnap; exact Hw.
Qed.

End Snapshot.

(** ** The activation loop *)

Section Activation.

Variable E : env.
Variable path : string.
Variable err : nat -> exc.

Lemma retried_retried k1 k2 evs1 evs2 w :
  retried k2 evs2 (retried k1 evs1 w) = retried (k1 + k2) (evs1 ++ evs2) w.
Proof.
  unfold retried. simpl. rewrite <- app_assoc, <- Nat.add_assoc. reflexivity.
Qed.

Lemma retried_zero w : retried 0 [] w = w.
Proof.
  destruct w. unfold retried. simpl. rewrite app_nil_r, Nat.add_0_r. reflexivity.
Qed.

(** [k] failed attempts that are retried leave the loop [k] iterations on. *)
Lemma enable_gps_nmea_retries base :
  forall k j n w,
    n_setup w = (base + j)%nat ->
    (j + k <= 9)%nat ->
    (forall i, (j <= i < j + k)%nat ->
       setup_reply E path (base + i) = Some (err i)
       /\ is_DBusException (err i) = true) ->
    enable_gps_nmea_from E path (k + n) (Z.of_nat j) w
    = enable_gps_nmea_from E path n (Z.of_nat (j + k))
        (retried k (flat_map (setup_round path err) (seq j k)) w).
Proof.
  induction k as [|k IH]; intros j n w Hbase Hle Hfail.
  - simpl. rewrite Nat.add_0_r, retried_zero. reflexivity.
  - destruct (Hfail j) as [Hreply Hdbus]; [lia|].
    change (S k + n)%nat with (S (k + n)). cbn [enable_gps_nmea_from].
    unfold try_except at 1. unfold location_iface_Setup at 1.
    rewrite Hbase, Hreply, Hdbus.
    replace (Z.of_nat j =? 9) with false by (symmetry; apply Z.eqb_neq; lia).
    unfold bind, log, time_sleep, emit, modify.
    change (2 <? 0) with false. cbv beta iota.
    replace (Z.of_nat j + 1) with (Z.of_nat (S j)) by lia.
    rewrite (IH (S j)).
    + replace (S j + k)%nat with (j + S k)%nat by lia. f_equal.
      unfold retried, add_event, next_setup, setup_round. simpl.
      rewrite <- !app_assoc. simpl. f_equal. lia.
    + simpl. rewrite Hbase. lia.
    + lia.
    + intros i Hi. apply Hfail. lia.
Qed.

(** Attempts [0 .. k-1] fail, attempt [k] succeeds: the loop stops there. *)
Lemma enable_gps_nmea_succeeds k w :
  (k <= 9)%nat ->
  (forall i, (i < k)%nat ->
     setup_reply E path (n_setup w + i) = Some (err i)
     /\ is_DBusException (err i) = true) ->
  setup_reply E path (n_setup w + k) = None ->
  enable_gps_nmea E path w
  = (Ret tt, retried (S k) (activation_trace path err k) w).
Proof.
  intros Hk Hfail Hok. unfold enable_gps_nmea.
  change (enable_gps_nmea_from E path 10 0 w)
    with (enable_gps_nmea_from E path 10 (Z.of_nat 0) w).
  replace 10%nat with (k + S (9 - k))%nat by lia.
  rewrite (enable_gps_nmea_retries (n_setup w) k 0 (S (9 - k)) w); [|lia|lia|].
  - cbn [enable_gps_nmea_from]. unfold try_except, location_iface_Setup.
    simpl (n_setup (retried _ _ _)). rewrite Hok. f_equal.
    unfold retried, add_event, next_setup, activation_trace. simpl.
    rewrite <- !app_assoc. f_equal. lia.
  - intros i Hi. apply Hfail. lia.
Qed.

(** All ten attempts fail: the tenth failure is raised again. *)
Lemma enable_gps_nmea_gives_up w :
  (forall i, (i < 10)%nat ->
     setup_reply E path (n_setup w + i) = Some (err i)
     /\ is_DBusException (err i) = true) ->
  enable_gps_nmea E path w
  = (Raise (err 9), retried 10 (activation_trace path err 9) w).
Proof.
  intros Hfail. unfold enable_gps_nmea.
  change (enable_gps_nmea_from E path 10 0 w)
    with (enable_gps_nmea_from E path (9 + 1) (Z.of_nat 0) w).
  rewrite (enable_gps_nmea_retries (n_setup w) 9 0 1 w); [|lia|lia|].
  - destruct (Hfail 9%nat) as [Hreply Hdbus]; [lia|].
    cbn [enable_gps_nmea_from]. unfold try_except, location_iface_Setup.
    simpl (n_setup (retried _ _ _)). rewrite Hreply, Hdbus.
    change (Z.of_nat (0 + 9) =? 9) with true. cbv iota. unfold raise. f_equal.
    unfold retried, add_event, next_setup, activation_trace. simpl.
    rewrite <- !app_assoc. f_equal. lia.
  - intros i Hi. apply Hfail. lia.
Qed.

End Activation.

(** ** [cleanup], run by run *)

Section Teardown.

Variable E : env.
Variable path : string.

Ltac run_cleanup :=
  unfold cleanup, bind, log, emit, modify, try_except, location_iface_Setup,
    os_path_islink, gets, os_unlink, os_close, ret, sys_exit, shut, add_event,
    next_setup, set_alias, set_open_fds;
  cbn [master_fd _last_nmea open_fds alias trace n_enum n_setup n_get n_write
       n_gpsdctl is_Exception].



(** Nothing was created: nothing is unlinked or closed, exit status 0. *)
Lemma cleanup_nothing_created w :
  master_fd w = None ->
  (forall target, alias w <> SymlinkTo target) ->
  cleanup E path w = (Exit 0, shut path [] w).
Proof.
  intros Hfd Halias. destruct w. simpl in *. subst.
  run_cleanup.
  destruct alias0 as [|target|]; [| exfalso; apply (Halias target); reflexivity |];
    destruct (setup_reply E path n_setup0);
    cbn [master_fd open_fds alias trace]; rewrite <- ?app_assoc; reflexivity.
Qed.

(** [cleanup] is its statements in order, then [sys.exit(0)]. *)
Lemma cleanup_by_steps w :
  cleanup E path w = (run_all (cleanup_steps E path) ;; sys_exit 0) w.
Proof.
  destruct w. unfold run_all, cleanup_steps, for_each. run_cleanup.
  destruct (setup_reply E path n_setup0); cbn [master_fd open_fds alias];
    destruct alias0; cbn [master_fd open_fds alias];
    repeat match goal with
           | |- context [match ?x with _ => _ end] =>
               destruct x; cbn [master_fd open_fds alias]
           end; reflexivity.
Qed.






End Teardown.

(** ** [setup_pty], step by step *)

Section Startup.

Variable E : env.

Lemma slave_is_open (fds : gset Z) m s : s ∈ fds ∪ {[ m; s ]}.
Proof. set_solver. Qed.

Ltac step :=
  cbv [setup_pty bind pty_openpty lift_reply modify os_ttyname os_close
       grp_getgrnam_dialout os_chown os_chmod fail_if emit os_path_islink
       os_path_exists gets os_unlink os_symlink log ret raise
       endpoint_ready unstaled prepared pty_opened add_event set_alias
       set_open_fds set_master_fd
       master_fd _last_nmea open_fds alias trace n_enum n_setup n_get n_write
       n_gpsdctl fst snd].

Ltac open_pty Hpty Htty :=
  step; rewrite Hpty; step; rewrite Htty; step;
  rewrite decide_True by apply slave_is_open; step.

Lemma setup_pty_group_lookup_fails w m s name :
  pty_pair E m s name ->
  getgrnam_dialout E = None ->
  setup_pty E w
  = (Raise (KeyError "getgrnam(): name not found: 'dialout'"), pty_opened m s w).
Proof.
  intros (Hpty & _ & Htty) Hgrp.
  destruct w as [mfd last fds al tr ne ns ng nw ngp]. open_pty Hpty Htty.
  rewrite Hgrp. reflexivity.
Qed.

Lemma setup_pty_unlink_fails w m s name gid e :
  pty_pair E m s name ->
  getgrnam_dialout E = Some gid ->
  chown_error E = None -> chmod_error E = None ->
  alias w <> NoFile ->
  unlink_error E = Some e ->
  setup_pty E w = (Raise e, prepared m s name gid w).
Proof.
  intros (Hpty & _ & Htty) Hgrp Hchown Hchmod Hstale Hunlink.
  destruct w as [mfd last fds al tr ne ns ng nw ngp]. simpl in Hstale.
  open_pty Hpty Htty.
  rewrite Hgrp, Hchown, Hchmod. step.
  destruct al as [|target|]; [congruence| |]; step; rewrite Hunlink; reflexivity.
Qed.

Lemma setup_pty_symlink_fails w m s name gid e :
  pty_pair E m s name ->
  getgrnam_dialout E = Some gid ->
  chown_error E = None -> chmod_error E = None ->
  (alias w = NoFile \/ unlink_error E = None) ->
  symlink_error E = Some e ->
  setup_pty E w = (Raise e, unstaled (prepared m s name gid w)).
Proof.
  intros (Hpty & _ & Htty) Hgrp Hchown Hchmod Hstale Hsym.
  destruct w as [mfd last fds al tr ne ns ng nw ngp]. simpl in Hstale.
  open_pty Hpty Htty.
  rewrite Hgrp, Hchown, Hchmod. step.
  destruct al as [|target|]; step.
  - rewrite Hsym. reflexivity.
  - destruct Hstale as [?|Hunlink]; [discriminate|]. rewrite Hunlink. step.
    rewrite Hsym. reflexivity.
  - destruct Hstale as [?|Hunlink]; [discriminate|]. rewrite Hunlink. step.
    rewrite Hsym. reflexivity.
Qed.

Lemma setup_pty_ready w m s name gid :
  endpoint_acquired E (alias w) m s name gid ->
  setup_pty E w = (Ret name, endpoint_ready m s name gid w).
Proof.
  intros ((Hpty & _ & Htty) & Hgrp & Hchown & Hchmod & Hstale & Hsym).
  destruct w as [mfd last fds al tr ne ns ng nw ngp]. simpl in Hstale.
  open_pty Hpty Htty.
  rewrite Hgrp, Hchown, Hchmod. step.
  destruct al as [|target|]; step.
  - rewrite Hsym. reflexivity.
  - destruct Hstale as [?|Hunlink]; [discriminate|]. rewrite Hunlink. step.
    rewrite Hsym. reflexivity.
  - destruct Hstale as [?|Hunlink]; [discriminate|]. rewrite Hunlink. step.
    rewrite Hsym. reflexivity.
Qed.

Lemma handle_stays_open (fds : gset Z) m s : m <> s -> m ∈ (fds ∪ {[ m; s ]}) ∖ {[ s ]}.
Proof. set_solver. Qed.

Lemma pty_opened_handle_open m s w : m <> s -> handle_open (pty_opened m s w).
Proof. intros H. exists m. split; [reflexivity|]. apply handle_stays_open, H. Qed.

Lemma prepared_handle_open m s name gid w :
  m <> s -> handle_open (prepared m s name gid w).
Proof. intros H. exists m. split; [reflexivity|]. apply handle_stays_open, H. Qed.

Lemma unstaled_handle_open w : handle_open w -> handle_open (unstaled w).
Proof. unfold unstaled. destruct (alias w); auto. Qed.

Lemma unstaled_alias w : alias (unstaled w) = NoFile.
Proof. unfold unstaled. destruct (alias w) eqn:H; auto. Qed.

Lemma endpoint_ready_handle_open m s name gid w :
  m <> s -> handle_open (endpoint_ready m s name gid w).
Proof.
  intros H.
  destruct (unstaled_handle_open _ (prepared_handle_open m s name gid w H))
    as (fd & Hfd & Hopen).
  exists fd. split; assumption.
Qed.

Lemma endpoint_ready_counts m s name gid w :
  n_enum (endpoint_ready m s name gid w) = n_enum w
  /\ n_setup (endpoint_ready m s name gid w) = n_setup w.
Proof.
  unfold endpoint_ready, unstaled. simpl. destruct (alias w); auto.
Qed.

End Startup.

(** ** [main] up to a fatal error *)

Section Abort.

Variable E : env.

Lemma endpoint_emit e : preserves same_endpoint (emit e).
Proof. by_cases. Qed.

Lemma endpoint_time_sleep secs : preserves same_endpoint (time_sleep secs).
Proof. unfold time_sleep. by_cases. Qed.

Lemma endpoint_GetManagedObjects : preserves same_endpoint (GetManagedObjects E).
Proof. unfold GetManagedObjects. by_cases. Qed.

Lemma endpoint_find_in_objects objs : preserves same_endpoint (find_in_objects objs).
Proof.
  induction objs as [|[path ifs] objs IH]; simpl.
  - apply preserves_ret, same_endpoint_refl.
  - destruct (capable ifs); [|exact IH].
    destruct (Ascii7.py_int _);
      [apply preserves_ret|apply preserves_raise]; apply same_endpoint_refl.
Qed.

Lemma endpoint_find_gps_modem_from n :
  forall attempt retries delay,
    preserves same_endpoint (find_gps_modem_from E n attempt retries delay).
Proof.
  induction n as [|n IH]; intros attempt retries delay; simpl.
  - apply preserves_raise, same_endpoint_refl.
  - apply preserves_bind;
      [apply same_endpoint_trans|apply endpoint_GetManagedObjects|].
    intros objs. apply preserves_bind;
      [apply same_endpoint_trans|apply endpoint_find_in_objects|].
    intros [r|]; [apply preserves_ret, same_endpoint_refl|].
    apply preserves_bind; [apply same_endpoint_trans| |intros _; apply IH].
    apply preserves_if; [|apply preserves_ret, same_endpoint_refl].
    apply preserves_bind; [apply same_endpoint_trans|apply endpoint_emit|].
    intros _. apply endpoint_time_sleep.
Qed.

Lemma endpoint_choose_modem : preserves same_endpoint (choose_modem E).
Proof.
  assert (Hdisc : preserves same_endpoint
            (r <- find_gps_modem E 15 2 ;;
             log ("Auto-discovered GPS modem: index " +:+ pretty r.1
                  +:+ " (" +:+ r.2 +:+ ")") ;;
             ret r)).
  { apply preserves_bind;
      [apply same_endpoint_trans|apply endpoint_find_gps_modem_from|].
    intros r. apply preserves_bind;
      [apply same_endpoint_trans|apply endpoint_emit|].
    intros _. apply preserves_ret, same_endpoint_refl. }
  unfold choose_modem. destruct (argv E) as [|prog [|arg rest]];
    [exact Hdisc|exact Hdisc|].
  destruct (Ascii7.py_int arg);
    [apply preserves_ret|apply preserves_raise]; apply same_endpoint_refl.
Qed.

Lemma handle_open_same w w' : same_endpoint w w' -> handle_open w -> handle_open w'.
Proof.
  intros (Hfd & Hopen & _) (fd & H1 & H2). exists fd.
  rewrite Hfd, Hopen. split; assumption.
Qed.

Lemma choose_modem_discovers w :
  (length (argv E) <= 1)%nat ->
  choose_modem E w
  = (r <- find_gps_modem E 15 2 ;;
     log ("Auto-discovered GPS modem: index " +:+ pretty r.1
          +:+ " (" +:+ r.2 +:+ ")") ;;
     ret r) w.
Proof.
  intros Hlen. unfold choose_modem.
  destruct (argv E) as [|prog [|arg rest]]; [reflexivity|reflexivity|].
  simpl in Hlen. lia.
Qed.

(** A fatal startup error leaves [main] by the exception, with the handle
    open and the alias as the failed step left it. *)
Lemma main_aborts a e al evs :
  fatal_startup E a e al ->
  exists w', main E evs (initial_world a) = (Raise e, w')
             /\ alias w' = al /\ handle_open w'.
Proof.
  intros Hfatal. destruct Hfatal as
    [ m s name Hpty Hgrp
    | m s name gid e Hpty Hgrp Hchown Hchmod Hstale Hunlink
    | m s name gid e Hpty Hgrp Hchown Hchmod Hstale Hsym
    | m s name gid Hacq Hbus Hargv Hmiss
    | m s name gid modem err Hacq Hbus Hmodem Hfail ].
  - exists (pty_opened m s (initial_world a)). split; [|split].
    + unfold main. unfold bind at 1.
      rewrite (setup_pty_group_lookup_fails E _ m s name Hpty Hgrp). reflexivity.
    + reflexivity.
    + apply pty_opened_handle_open. apply Hpty.
  - exists (prepared m s name gid (initial_world a)). split; [|split].
    + unfold main. unfold bind at 1.
      rewrite (setup_pty_unlink_fails E _ m s name gid e); auto.
    + reflexivity.
    + apply prepared_handle_open. apply Hpty.
  - exists (unstaled (prepared m s name gid (initial_world a))). split; [|split].
    + unfold main. unfold bind at 1.
      rewrite (setup_pty_symlink_fails E _ m s name gid e); auto.
    + apply unstaled_alias.
    + apply unstaled_handle_open, prepared_handle_open. apply Hpty.
  - set (w1 := endpoint_ready m s name gid (initial_world a)).
    assert (Hexh : find_gps_modem E 15 2 w1
                   = (Raise (RuntimeError (no_modem_message 15 2)),
                      missed 15 (exhausted_trace 15 2) w1)).
    { apply find_gps_modem_exhausted; [lia|lia|].
      intros i Hi. destruct (endpoint_ready_counts m s name gid (initial_world a))
        as [Hn _]. fold w1 in Hn. rewrite Hn. apply Hmiss. exact Hi. }
    exists (missed 15 (exhausted_trace 15 2) w1). split; [|split].
    + unfold main. unfold bind at 1.
      rewrite (setup_pty_ready E _ m s name gid) by exact Hacq. fold w1.
      unfold bind at 1. unfold dbus_SystemBus. rewrite Hbus. unfold fail_if, ret.
      unfold bind at 1. rewrite (choose_modem_discovers w1 Hargv).
      unfold bind at 1. rewrite Hexh. reflexivity.
    + reflexivity.
    + destruct (endpoint_ready_handle_open m s name gid (initial_world a))
        as (fd & Hfd & Hopen); [apply Hacq|].
      exists fd. split; assumption.
  - set (w1 := endpoint_ready m s name gid (initial_world a)) in *.
    pose proof (endpoint_choose_modem w1) as Hsame.
    destruct (choose_modem E w1) as [[modem'|e'|c'] w2] eqn:Hrun;
      simpl in Hmodem; try discriminate.
    injection Hmodem as ->. simpl in Hsame.
    assert (Hgive : enable_gps_nmea E modem.2 w2
                    = (Raise (err 9%nat),
                       retried 10 (activation_trace modem.2 err 9) w2)).
    { apply enable_gps_nmea_gives_up. intros i Hi.
      destruct Hsame as (_ & _ & _ & Hn). rewrite Hn.
      destruct (endpoint_ready_counts m s name gid (initial_world a)) as [_ Hs].
      fold w1 in Hs. rewrite Hs. apply Hfail. exact Hi. }
    exists (retried 10 (activation_trace modem.2 err 9) w2). split; [|split].
    + unfold main. unfold bind at 1.
      rewrite (setup_pty_ready E _ m s name gid) by exact Hacq. fold w1.
      unfold bind at 1. unfold dbus_SystemBus. rewrite Hbus. unfold fail_if, ret.
      unfold bind at 1. rewrite Hrun. cbv zeta.
      unfold bind at 1. rewrite Hgive. reflexivity.
    + destruct Hsame as (_ & _ & Ha & _). simpl. rewrite Ha. reflexivity.
    + destruct (handle_open_same w1 w2 Hsame) as (fd & Hfd & Hopen).
      * apply endpoint_ready_handle_open. apply Hacq.
      * exists fd. split; assumption.
Qed.

End Abort.

(** * The properties of the specification *)

Lemma sample_payload_encodable : encodable_str sample_payload.
Proof. repeat constructor. Defined.

(** ** The forwarding primitive: what it writes, and what a failed write does *)

(** C1.  For every input text, [write_nmea] returns and the [os.write] calls
    it makes on the controller-side handle are exactly the lines of the text
    (split at line boundaries, each trimmed) that begin with the dollar
    sign, each encoded with CR LF appended, in their original order; no call
    is made for any other line.  When no write fails these writes are all
    that the call adds to the trace.  The text is any string UTF-8 can
    encode (every string a bus delivers) and the handle is the one
    [setup_pty] stored. *)
Theorem write_nmea_forwards_sentences (E : env) (fd : Z) (sentences : pystr)
    (w : world) :
  master_fd w = Some fd ->
  encodable_str sentences ->
  (write_nmea E sentences w).1 = Ret tt
  /\ attempted (trace (write_nmea E sentences w).2)
     = attempted (trace w)
       ++ map (fun line => (fd, utf8 (line ++ crlf))) (spec_lines sentences)
  /\ (fd ∈ open_fds w ->
      (forall n, write_error E n = None) ->
      trace (write_nmea E sentences w).2
      = trace w
        ++ map (fun line => EvOsWrite fd (utf8 (line ++ crlf)) None)
               (spec_lines sentences)).
Proof.
  intros Hfd Henc. rewrite (write_nmea_run E fd sentences w Hfd Henc).
  rewrite nmea_lines_spec. cbn [fst snd]. split; [reflexivity|]. split.
  - apply forward_lines_attempted.
  - intros Hopen Hok. apply forward_lines_clean; assumption.
Qed.

Lemma write_nmea_forwards_sentences_witness :
  (write_nmea quiet_env sample_payload running_world).1 = Ret tt
  /\ attempted (trace (write_nmea quiet_env sample_payload running_world).2)
     = attempted (trace running_world)
       ++ map (fun line => (3, utf8 (line ++ crlf))) (spec_lines sample_payload)
  /\ (3 ∈ open_fds running_world ->
      (forall n, write_error quiet_env n = None) ->
      trace (write_nmea quiet_env sample_payload running_world).2
      = trace running_world
        ++ map (fun line => EvOsWrite 3 (utf8 (line ++ crlf)) None)
               (spec_lines sample_payload)).
Proof.
  apply (write_nmea_forwards_sentences quiet_env 3 sample_payload running_world).
  - reflexivity.
  - exact sample_payload_encodable.
Defined.

(** C9.  For every payload and whatever the writes answer, [write_nmea]
    returns normally: each kept line gets its [os.write] call in order, a
    call that fails is followed by a "PTY write error" log line, and the
    loop goes on with the next line.  On a handle that is already closed
    every write fails with EBADF and is logged the same way. *)
Theorem write_nmea_survives_write_errors (E : env) (fd : Z) (sentences : pystr)
    (w : world) :
  master_fd w = Some fd ->
  encodable_str sentences ->
  (write_nmea E sentences w).1 = Ret tt
  /\ (exists chunks,
        Forall2 (line_outcome fd) (spec_lines sentences) chunks
        /\ trace (write_nmea E sentences w).2 = trace w ++ concat chunks)
  /\ (fd ∉ open_fds w ->
      trace (write_nmea E sentences w).2
      = trace w ++ concat (map (fun line =>
          [EvOsWrite fd (line_data line) (Some EBADF);
           EvLog (write_error_message EBADF "Bad file descriptor")])
          (spec_lines sentences))).
Proof.
  intros Hfd Henc. rewrite (write_nmea_run E fd sentences w Hfd Henc).
  rewrite nmea_lines_spec. cbn [fst snd]. split; [reflexivity|]. split.
  - apply forward_lines_outcome.
  - intros Hclosed. apply forward_lines_closed, Hclosed.
Qed.

Lemma write_nmea_survives_write_errors_witness :
  (write_nmea flaky_env sample_payload running_world).1 = Ret tt
  /\ (exists chunks,
        Forall2 (line_outcome 3) (spec_lines sample_payload) chunks
        /\ trace (write_nmea flaky_env sample_payload running_world).2
           = trace running_world ++ concat chunks)
  /\ (3 ∉ open_fds running_world ->
      trace (write_nmea flaky_env sample_payload running_world).2
      = trace running_world ++ concat (map (fun line =>
          [EvOsWrite 3 (line_data line) (Some EBADF);
           EvLog (write_error_message EBADF "Bad file descriptor")])
          (spec_lines sample_payload))).
Proof.
  apply (write_nmea_survives_write_errors flaky_env 3 sample_payload running_world).
  - reflexivity.
  - exact sample_payload_encodable.
Defined.

(** The run behind the two statements above: the second write fails, is
    logged, and nothing else is lost. *)
Example flaky_write_run :
  write_nmea flaky_env sample_payload running_world
  = (Ret tt,
     mkWorld (Some 3) [] {[ 0; 1; 2; 3 ]} (SymlinkTo "/dev/pts/5")
       [EvOsWrite 3 (utf8 (lit "$GPGGA,1" ++ crlf)) None;
        EvOsWrite 3 (utf8 (lit "$GPRMC,2" ++ crlf)) (Some 5);
        EvLog "PTY write error: [Errno 5] Input/output error"]
       0 0 0 2 0).
Proof. vm_compute. reflexivity. Qed.

(** ** Discovery: the first capable object, and the exhausted budget *)

(** C5.  When an enumeration within the budget holds an object that exposes
    the location interface with the NMEA bit in its capabilities, and the
    enumerations before it held none, [find_gps_modem] returns the first
    such object of that enumeration, as the pair of the integer parsed from
    the last segment of its path and the path itself, wherever the object
    stands in the enumeration (whatever comes before and after it). *)
Theorem find_gps_modem_first_capable (E : env) (retries delay : Z) (w : world)
    (k : nat) (pre post : objects) (path : string) (ifs : interfaces) (index : Z) :
  0 <= delay ->
  Z.of_nat k < retries ->
  (forall i, (i < k)%nat ->
     exists objs, managed_objects E (n_enum w + i) = inr objs /\ no_capable objs) ->
  managed_objects E (n_enum w + k) = inr (pre ++ (path, ifs) :: post) ->
  no_capable pre ->
  capable ifs = true ->
  Ascii7.py_int (Ascii7.last_segment path) = Some index ->
  (find_gps_modem E retries delay w).1 = Ret (index, path).
Proof.
  intros Hdelay Hk Hmiss Hobjs Hpre Hcap Hint. unfold find_gps_modem.
  replace (Z.to_nat retries) with (k + S (Z.to_nat retries - S k))%nat by lia.
  rewrite (find_gps_modem_misses E retries delay Hdelay k _ 0 w Hmiss).
  cbn [find_gps_modem_from]. unfold bind at 1. unfold GetManagedObjects.
  change (n_enum (missed k (miss_events retries delay 0 k) w))
    with (n_enum w + k)%nat.
  rewrite Hobjs. unfold bind at 1.
  rewrite (find_in_objects_first pre path ifs post index _ Hpre Hcap Hint).
  reflexivity.
Qed.

Lemma find_gps_modem_first_capable_witness :
  (find_gps_modem late_modem_env 15 2 running_world).1 = Ret (7, sample_modem_path).
Proof.
  apply (find_gps_modem_first_capable late_modem_env 15 2 running_world 2
           [("/org/freedesktop/ModemManager1/Modem/0",
             {[ MM_LOC_IFACE := {[ "Capabilities" := 3 ]} ]})]
           [] sample_modem_path
           {[ MM_LOC_IFACE := {[ "Capabilities" := 7 ]} ]} 7).
  - lia.
  - lia.
  - intros i Hi. exists []. split; [|constructor].
    destruct i as [|[|i]]; [reflexivity|reflexivity|lia].
  - reflexivity.
  - repeat constructor.
  - reflexivity.
  - reflexivity.
Defined.

(** C6.  When none of the [retries] enumerations holds a capable object,
    [find_gps_modem] makes exactly [retries] enumerations, logs and sleeps
    [delay] seconds between one attempt and the next, and then raises the
    "no modem found" error whose message carries [retries * delay] seconds;
    there is no further attempt. *)
Theorem find_gps_modem_exhausts_budget (E : env) (retries delay : Z) (w : world) :
  0 <= retries ->
  0 <= delay ->
  (forall i, (i < Z.to_nat retries)%nat ->
     exists objs, managed_objects E (n_enum w + i) = inr objs /\ no_capable objs) ->
  (find_gps_modem E retries delay w).1
  = Raise (RuntimeError
      ("No modem with GPS NMEA capability found after "
       +:+ pretty (retries * delay) +:+ "s." +:+ newline
       +:+ "Check:  mmcli -L && mmcli -m <index> --location-status"))
  /\ trace (find_gps_modem E retries delay w).2
     = trace w ++ exhausted_trace retries delay
  /\ enumerations (exhausted_trace retries delay) = Z.to_nat retries
  /\ n_enum (find_gps_modem E retries delay w).2 = (n_enum w + Z.to_nat retries)%nat.
Proof.
  intros Hr Hd Hmiss. rewrite (find_gps_modem_exhausted E retries delay w Hr Hd Hmiss).
  cbn [fst snd]. split; [reflexivity|]. split; [reflexivity|]. split.
  - apply exhausted_enumerations, Hr.
  - reflexivity.
Qed.

Lemma find_gps_modem_exhausts_budget_witness :
  (find_gps_modem no_modem_env 3 2 running_world).1
  = Raise (RuntimeError
      ("No modem with GPS NMEA capability found after "
       +:+ pretty (3 * 2) +:+ "s." +:+ newline
       +:+ "Check:  mmcli -L && mmcli -m <index> --location-status"))
  /\ trace (find_gps_modem no_modem_env 3 2 running_world).2
     = trace running_world ++ exhausted_trace 3 2
  /\ enumerations (exhausted_trace 3 2) = Z.to_nat 3
  /\ n_enum (find_gps_modem no_modem_env 3 2 running_world).2
     = (n_enum running_world + Z.to_nat 3)%nat.
Proof.
  apply (find_gps_modem_exhausts_budget no_modem_env 3 2 running_world).
  - lia.
  - lia.
  - intros i Hi. exists []. split; [reflexivity|constructor].
Defined.

(** The three attempts of the run above, call by call. *)
Example exhausted_trace_three :
  exhausted_trace 3 2
  = [EvGetManagedObjects; EvLog "No GPS modem found yet, retrying in 2s… (1/3)";
     EvSleep 2;
     EvGetManagedObjects; EvLog "No GPS modem found yet, retrying in 2s… (2/3)";
     EvSleep 2;
     EvGetManagedObjects].
Proof. vm_compute. reflexivity. Qed.

(** C10.  A discovery that uses up its budget of [retries] attempts sleeps
    only between attempts: [retries - 1] sleeps of [delay] seconds,
    [(retries - 1) * delay] seconds in all, the last call being the last
    enumeration and not a sleep; the message of the error it raises reports
    [retries * delay] seconds. *)
Theorem find_gps_modem_sleeps_between_attempts (E : env) (retries delay : Z)
    (w : world) :
  1 <= retries ->
  0 <= delay ->
  (forall i, (i < Z.to_nat retries)%nat ->
     exists objs, managed_objects E (n_enum w + i) = inr objs /\ no_capable objs) ->
  exists evs,
    trace (find_gps_modem E retries delay w).2 = trace w ++ evs
    /\ sleeps evs = replicate (Z.to_nat (retries - 1)) delay
    /\ total (sleeps evs) = (retries - 1) * delay
    /\ last evs = Some EvGetManagedObjects
    /\ (find_gps_modem E retries delay w).1
       = Raise (RuntimeError
           ("No modem with GPS NMEA capability found after "
            +:+ pretty (retries * delay) +:+ "s." +:+ newline
            +:+ "Check:  mmcli -L && mmcli -m <index> --location-status")).
Proof.
  intros Hr Hd Hmiss.
  rewrite (find_gps_modem_exhausted E retries delay w) by (lia || assumption).
  cbn [fst snd]. exists (exhausted_trace retries delay).
  split; [reflexivity|]. split; [apply exhausted_sleeps, Hr|]. split; [|split].
  - rewrite exhausted_sleeps by exact Hr. rewrite total_replicate.
    rewrite Z2Nat.id by lia. reflexivity.
  - unfold exhausted_trace. destruct (Z.eqb_spec retries 0); [lia|].
    apply last_snoc.
  - reflexivity.
Qed.

Lemma find_gps_modem_sleeps_between_attempts_witness :
  exists evs,
    trace (find_gps_modem no_modem_env 15 2 running_world).2
    = trace running_world ++ evs
    /\ sleeps evs = replicate (Z.to_nat (15 - 1)) 2
    /\ total (sleeps evs) = (15 - 1) * 2
    /\ last evs = Some EvGetManagedObjects
    /\ (find_gps_modem no_modem_env 15 2 running_world).1
       = Raise (RuntimeError
           ("No modem with GPS NMEA capability found after "
            +:+ pretty (15 * 2) +:+ "s." +:+ newline
            +:+ "Check:  mmcli -L && mmcli -m <index> --location-status")).
Proof.
  apply (find_gps_modem_sleeps_between_attempts no_modem_env 15 2 running_world).
  - lia.
  - lia.
  - intros i Hi. exists []. split; [reflexivity|constructor].
Defined.

(** ** Activation: ten attempts, two seconds apart *)

(** C7.  Activation calls [Setup(GPS_NMEA, True)] on the source.  While the
    call fails with a bus exception it logs the bus name of the error,
    sleeps two seconds and calls again; the first call that succeeds is the
    last one made; when the tenth call fails too, that tenth failure is
    raised again, with no log line and no sleep after it. *)
Theorem enable_gps_nmea_retries_ten_times (E : env) (path : string)
    (err : nat -> exc) (w : world) :
  (forall k, (k <= 9)%nat ->
     (forall i, (i < k)%nat ->
        setup_reply E path (n_setup w + i) = Some (err i)
        /\ is_DBusException (err i) = true) ->
     setup_reply E path (n_setup w + k) = None ->
     enable_gps_nmea E path w
     = (Ret tt, retried (S k) (activation_trace path err k) w))
  /\ ((forall i, (i < 10)%nat ->
         setup_reply E path (n_setup w + i) = Some (err i)
         /\ is_DBusException (err i) = true) ->
      enable_gps_nmea E path w
      = (Raise (err 9%nat), retried 10 (activation_trace path err 9) w)).
Proof.
  split.
  - intros k Hk Hfail Hok. apply enable_gps_nmea_succeeds; assumption.
  - intros Hfail. apply enable_gps_nmea_gives_up, Hfail.
Qed.

Lemma enable_gps_nmea_retries_ten_times_witness :
  enable_gps_nmea slow_modem_env sample_modem_path running_world
  = (Ret tt,
     retried 3 (activation_trace sample_modem_path (fun _ => sample_wrong_state) 2)
             running_world)
  /\ enable_gps_nmea
       (sample_env (Some 20) (fun _ => inr sample_objects)
                   (fun _ _ => Some sample_wrong_state) (fun _ => None))
       sample_modem_path running_world
     = (Raise sample_wrong_state,
        retried 10 (activation_trace sample_modem_path (fun _ => sample_wrong_state) 9)
                running_world).
Proof.
  split.
  - apply (proj1 (enable_gps_nmea_retries_ten_times slow_modem_env sample_modem_path
                    (fun _ => sample_wrong_state) running_world) 2%nat).
    + lia.
    + intros i Hi. destruct i as [|[|i]]; [split; reflexivity|split; reflexivity|lia].
    + reflexivity.
  - apply (proj2 (enable_gps_nmea_retries_ten_times _ sample_modem_path
                    (fun _ => sample_wrong_state) running_world)).
    intros i Hi. split; reflexivity.
Defined.

(** The calls of an activation that succeeds at its third attempt. *)
Example activation_trace_two :
  activation_trace sample_modem_path (fun _ => sample_wrong_state) 2
  = [EvSetup sample_modem_path 4 true;
     EvLog "Setup failed (org.freedesktop.ModemManager1.Error.Core.WrongState), retrying in 2s… (1/10)";
     EvSleep 2;
     EvSetup sample_modem_path 4 true;
     EvLog "Setup failed (org.freedesktop.ModemManager1.Error.Core.WrongState), retrying in 2s… (2/10)";
     EvSleep 2;
     EvSetup sample_modem_path 4 true].
Proof. vm_compute. reflexivity. Qed.

(** ** The poll feed *)

(** C8.  A poll tick always returns true.  When reading the snapshot raises,
    the exception is logged and nothing else happens: no write is attempted
    and [_last_nmea] is left alone.  When the NMEA payload is empty nothing
    is forwarded and the snapshot is left alone: the world only shows the
    read.  When the payload is not empty it is forwarded with [write_nmea],
    one write to the handle for each of its sentences, in order, and
    recorded in [_last_nmea]. *)
Theorem poll_nmea_tick (E : env) (path : string) (w : world) :
  (poll_nmea E path w).1 = Ret true
  /\ (forall e,
        location_reply E path (n_get w) = inl e ->
        (poll_nmea E path w).2
        = add_event (EvLog ("Poll error: " +:+ exc_str e)) (got path w)
        /\ attempted (trace (poll_nmea E path w).2) = attempted (trace w)
        /\ _last_nmea (poll_nmea E path w).2 = _last_nmea w)
  /\ (forall loc,
        location_reply E path (n_get w) = inr loc ->
        nmea_of loc = [] ->
        (poll_nmea E path w).2 = got path w
        /\ attempted (trace (poll_nmea E path w).2) = attempted (trace w)
        /\ _last_nmea (poll_nmea E path w).2 = _last_nmea w)
  /\ (forall loc fd,
        location_reply E path (n_get w) = inr loc ->
        nmea_of loc <> [] ->
        master_fd w = Some fd ->
        encodable_str (nmea_of loc) ->
        (poll_nmea E path w).2
        = set_last_nmea (nmea_of loc) (write_nmea E (nmea_of loc) (got path w)).2
        /\ attempted (trace (poll_nmea E path w).2)
           = attempted (trace w)
             ++ map (fun line => (fd, line_data line)) (nmea_lines (nmea_of loc))
        /\ _last_nmea (poll_nmea E path w).2 = nmea_of loc).
Proof.
  assert (Hgot : attempted (trace (got path w)) = attempted (trace w)).
  { unfold got, add_event, next_get. cbn [trace].
    rewrite attempted_app. simpl. apply app_nil_r. }
  split; [apply poll_nmea_returns_true|]. split; [|split].
  - intros e H. rewrite (poll_nmea_read_error E path w e H).
    split; [reflexivity|]. split; [|reflexivity].
    unfold add_event at 1. cbn [trace]. rewrite attempted_app, Hgot.
    simpl. apply app_nil_r.
  - intros loc H Hempty. rewrite (poll_nmea_empty E path w loc H Hempty).
    split; [reflexivity|]. split; [exact Hgot|reflexivity].
  - intros loc fd H Hne Hfd Henc.
    rewrite (poll_nmea_forwards E path w loc fd H Hne Hfd Henc).
    split; [|split; [|reflexivity]].
    + rewrite (write_nmea_run E fd (nmea_of loc) (got path w)); [reflexivity| |exact Henc].
      exact Hfd.
    + cbn [trace set_last_nmea]. rewrite forward_lines_attempted, Hgot. reflexivity.
Qed.

Lemma poll_nmea_tick_witness :
  attempted (trace (poll_nmea quiet_env sample_modem_path running_world).2)
  = attempted (trace running_world)
    ++ map (fun line => (3, line_data line))
           (nmea_lines (nmea_of {[ GPS_NMEA := sample_payload ]}))
  /\ _last_nmea (poll_nmea quiet_env sample_modem_path running_world).2
     = nmea_of {[ GPS_NMEA := sample_payload ]}.
Proof.
  refine (proj2 (proj2 (proj2 (proj2
            (poll_nmea_tick quiet_env sample_modem_path running_world)))
            {[ GPS_NMEA := sample_payload ]} 3 _ _ _ _)).
  - reflexivity.
  - discriminate.
  - reflexivity.
  - exact sample_payload_encodable.
Defined.

(** One tick on the sample payload: two lines written, snapshot recorded. *)
Example poll_tick_run :
  poll_nmea quiet_env sample_modem_path running_world
  = (Ret true,
     mkWorld (Some 3) sample_payload {[ 0; 1; 2; 3 ]} (SymlinkTo "/dev/pts/5")
       [EvGet sample_modem_path;
        EvOsWrite 3 (utf8 (lit "$GPGGA,1" ++ crlf)) None;
        EvOsWrite 3 (utf8 (lit "$GPRMC,2" ++ crlf)) None]
       0 0 1 2 0).
Proof. vm_compute. reflexivity. Qed.

(** ** The snapshot [_last_nmea] *)

(** C2, as stated, fails on the event feed: a notification whose payload is
    forwarded (one successful write) leaves the snapshot empty. *)
Lemma event_feed_leaves_snapshot :
  (on_properties_changed quiet_env MM_LOC_IFACE sample_changed running_world).1 = Ret tt
  /\ written (trace (on_properties_changed quiet_env MM_LOC_IFACE sample_changed
                       running_world).2)
     = [(3, utf8 (lit "$GPGGA,1" ++ crlf))]
  /\ _last_nmea (on_properties_changed quiet_env MM_LOC_IFACE sample_changed
                   running_world).2
     <> lit "$GPGGA,1".
Proof.
  split; [vm_compute; reflexivity|]. split; [vm_compute; reflexivity|].
  vm_compute. discriminate.
Qed.

(** C2, amended.  The snapshot follows the poll feed only.  A poll tick that
    forwards a non-empty payload sets [_last_nmea] to that payload; the
    event feed forwards without ever assigning it; a tick leaves it as it
    was or sets it to the non-empty payload it has just read; so, once set,
    it is never empty again, whatever the reactor dispatches. *)
Theorem snapshot_follows_poll_feed (E : env) :
  (forall path w loc fd,
     location_reply E path (n_get w) = inr loc ->
     nmea_of loc <> [] ->
     master_fd w = Some fd ->
     encodable_str (nmea_of loc) ->
     _last_nmea (poll_nmea E path w).2 = nmea_of loc)
  /\ (forall iface changed w,
        _last_nmea (on_properties_changed E iface changed w).2 = _last_nmea w)
  /\ (forall path w,
        _last_nmea (poll_nmea E path w).2 = _last_nmea w
        \/ exists loc, location_reply E path (n_get w) = inr loc
                       /\ nmea_of loc <> []
                       /\ _last_nmea (poll_nmea E path w).2 = nmea_of loc)
  /\ (forall path armed evs w,
        _last_nmea w <> [] ->
        _last_nmea (mainloop_run E path armed evs w).2 <> []).
Proof.
  split; [|split; [|split]].
  - intros path w loc fd H Hne Hfd Henc.
    rewrite (poll_nmea_forwards E path w loc fd H Hne Hfd Henc). reflexivity.
  - intros iface changed w. apply (snapshot_on_properties_changed E iface changed w).
  - intros path w. apply poll_nmea_snapshot.
  - intros path armed evs w. apply mainloop_snapshot_nonempty.
Qed.

Lemma snapshot_follows_poll_feed_witness :
  _last_nmea (poll_nmea quiet_env sample_modem_path running_world).2
  = nmea_of {[ GPS_NMEA := sample_payload ]}.
Proof.
  apply (proj1 (snapshot_follows_poll_feed quiet_env)
           sample_modem_path running_world {[ GPS_NMEA := sample_payload ]} 3).
  - reflexivity.
  - discriminate.
  - reflexivity.
  - exact sample_payload_encodable.
Defined.

(** ** Fatal startup errors *)

(** C3, as stated, fails: when discovery runs out of attempts the process
    aborts with the alias still in place and the handle still open. *)
Lemma startup_abort_skips_release : ~ releases_before_abort no_modem_env NoFile.
Proof.
  intros H.
  assert (Hrun : exists e w',
             main no_modem_env [] (initial_world NoFile) = (Raise e, w')
             /\ alias w' = SymlinkTo "/dev/pts/5").
  { eexists. eexists. split; [vm_compute; reflexivity|reflexivity]. }
  destruct Hrun as (e & w' & Hrun & Halias).
  destruct (H e w' Hrun) as [Hnone _]. congruence.
Qed.

(** C3, amended.  On every fatal startup error (group lookup, unlink or
    symlink at the alias path, discovery budget, activation budget) the
    exception leaves [main] and endpoint release is not attempted: the
    controller-side handle is still open, and the alias path is as the
    failed step left it, the new symbolic link included once it exists. *)
Theorem fatal_startup_aborts_without_release (E : env) (a : alias_state) (e : exc)
    (al : alias_state) (evs : list reactor_event) :
  fatal_startup E a e al ->
  exists w', main E evs (initial_world a) = (Raise e, w')
             /\ alias w' = al /\ handle_open w'.
Proof. apply main_aborts. Qed.

Lemma fatal_startup_aborts_without_release_witness :
  exists w', main no_modem_env [] (initial_world OtherFile)
             = (Raise (RuntimeError (no_modem_message 15 2)), w')
             /\ alias w' = SymlinkTo "/dev/pts/5" /\ handle_open w'.
Proof.
  apply (fatal_startup_aborts_without_release no_modem_env OtherFile
           (RuntimeError (no_modem_message 15 2)) (SymlinkTo "/dev/pts/5") []).
  apply (DiscoveryExhausted no_modem_env OtherFile 3 4 "/dev/pts/5" 20).
  - repeat split; try reflexivity; [discriminate|right; reflexivity].
  - reflexivity.
  - simpl. lia.
  - intros i Hi. exists []. split; [reflexivity|constructor].
Defined.

(** ** Teardown run twice *)

(** C4.  The claim is right and [cleanup] misses it.  Of its two guards,
    [os.path.islink(PTY_LINK)] turns false once the alias is removed, but
    [master_fd is not None] stays true once the handle is closed, since
    [master_fd] is never set back to [None].  Run again after the first
    run's [os.close] (a second signal delivered between [os.close] and
    [sys.exit]), [cleanup] logs and calls the deactivation once more,
    unlinks nothing, closes the closed handle and ends in [OSError]: it
    does not reach [sys.exit(0)]. *)
Lemma cleanup_twice_differs :
  (cleanup quiet_env sample_modem_path running_world).1 = Exit 0
  /\ (cleanup quiet_env sample_modem_path
        (cleanup quiet_env sample_modem_path running_world).2).1
     = Raise (OSError EBADF "Bad file descriptor")
  /\ trace (cleanup quiet_env sample_modem_path
              (cleanup quiet_env sample_modem_path running_world).2).2
     = trace (cleanup quiet_env sample_modem_path running_world).2
       ++ [EvLog "Shutting down…"; EvSetup sample_modem_path 0 false;
           EvClose 3 (Some EBADF)]
  /\ (cleanup_reentered quiet_env sample_modem_path 4 running_world).1
     = Raise (OSError EBADF "Bad file descriptor").
Proof.
  split; [vm_compute; reflexivity|]. split; [vm_compute; reflexivity|].
  split; vm_compute; reflexivity.
Qed.

(** * Further properties of the code *)

(** ** Registration with gpsd *)

Section Notify.

Variable E : env.

Lemma notified_notified k1 k2 evs1 evs2 w :
  notified k2 evs2 (notified k1 evs1 w) = notified (k1 + k2) (evs1 ++ evs2) w.
Proof.
  unfold notified. simpl. rewrite <- app_assoc, <- Nat.add_assoc. reflexivity.
Qed.

Lemma notified_zero w : notified 0 [] w = w.
Proof.
  destruct w. unfold notified. simpl. rewrite app_nil_r, Nat.add_0_r. reflexivity.
Qed.

Lemma gpsdctl_rejects r :
  gpsdctl_accepts r = false -> (r.1 =? 0) = false /\ r.2 = false.
Proof. unfold gpsdctl_accepts. apply orb_false_iff. Qed.

(** [k] attempts that gpsd does not take leave the loop [k] iterations on. *)
Lemma notify_gpsd_rejected :
  forall k n w,
    (forall i, (i < k)%nat ->
       gpsdctl_accepts (gpsdctl_reply E (n_gpsdctl w + i)) = false) ->
    notify_gpsd_from E (k + n) w
    = notify_gpsd_from E n (notified k (concat (replicate k notify_round)) w).
Proof.
  induction k as [|k IH]; intros n w Hrej.
  - simpl. rewrite notified_zero. reflexivity.
  - destruct (gpsdctl_rejects _ (Hrej 0%nat ltac:(lia))) as [Hcode Hmark].
    rewrite Nat.add_0_r in Hcode, Hmark.
    change (S k + n)%nat with (S (k + n)). cbn [notify_gpsd_from].
    unfold bind, time_sleep, emit, modify, gpsdctl_add.
    change (1 <? 0) with false. cbv beta iota.
    change (n_gpsdctl (add_event (EvSleep 1) w)) with (n_gpsdctl w).
    rewrite Hcode, Hmark.
    rewrite IH.
    + f_equal. unfold notified, add_event, next_gpsdctl. simpl.
      rewrite <- !app_assoc. f_equal. lia.
    + intros i Hi. simpl.
      replace (S (n_gpsdctl w + i)) with (n_gpsdctl w + S i)%nat by lia.
      apply Hrej. lia.
Qed.

End Notify.

Lemma notify_rounds_snoc k :
  concat (replicate (S k) notify_round)
  = concat (replicate k notify_round) ++ notify_round.
Proof.
  induction k as [|k IH]; [reflexivity|].
  change (concat (replicate (S (S k)) notify_round))
    with (notify_round ++ concat (replicate (S k) notify_round)).
  rewrite IH at 1. rewrite app_assoc. reflexivity.
Qed.

(** X1.  [notify_gpsd] starts gpsd and then runs [gpsdctl add] once a second:
    the first run that returns 0, or whose output says a running gpsd was
    reached, is the last one, and the device is logged as added (return
    code 0 has precedence) or as already tracked. *)
Theorem notify_gpsd_registers (E : env) (k : nat) (w : world) :
  (k < 10)%nat ->
  (forall i, (i < k)%nat ->
     gpsdctl_accepts (gpsdctl_reply E (n_gpsdctl w + i)) = false) ->
  gpsdctl_accepts (gpsdctl_reply E (n_gpsdctl w + k)) = true ->
  notify_gpsd E w
  = (Ret tt,
     notified (S k)
       ([EvSystemctlStart] ++ concat (replicate (S k) notify_round)
        ++ [EvLog (notify_message (gpsdctl_reply E (n_gpsdctl w + k)))])
       w).
Proof.
  intros Hk Hrej Hacc. unfold notify_gpsd. unfold bind at 1. unfold emit, modify.
  replace 10%nat with (k + S (9 - k))%nat by lia.
  rewrite (notify_gpsd_rejected E k (S (9 - k)) (add_event EvSystemctlStart w) Hrej).
  cbn [notify_gpsd_from]. unfold bind, time_sleep, emit, modify, gpsdctl_add.
  change (1 <? 0) with false. cbv beta iota.
  match goal with |- context [gpsdctl_reply E ?n] =>
    change n with (n_gpsdctl w + k)%nat end.
  unfold gpsdctl_accepts in Hacc. unfold notify_message.
  assert (Hw : forall msg,
    add_event (EvLog msg)
      (add_event EvGpsdctlAdd
         (next_gpsdctl
            (add_event (EvSleep 1)
               (notified k (concat (replicate k notify_round))
                  (add_event EvSystemctlStart w)))))
    = notified (S k)
        ([EvSystemctlStart] ++ concat (replicate (S k) notify_round) ++ [EvLog msg]) w).
  { intros msg. rewrite notify_rounds_snoc.
    unfold notified, add_event, next_gpsdctl, notify_round.
    cbn [master_fd _last_nmea open_fds alias trace n_enum n_setup n_get n_write
         n_gpsdctl].
    f_equal; [|lia]. rewrite <- !app_assoc. reflexivity. }
  destruct (fst (gpsdctl_reply E (n_gpsdctl w + k)) =? 0) eqn:Hcode.
  - unfold log, emit, modify. rewrite Hw. reflexivity.
  - simpl in Hacc. rewrite Hacc. unfold log, emit, modify. rewrite Hw. reflexivity.
Qed.

Lemma notify_gpsd_registers_witness :
  notify_gpsd (with_gpsdctl (fun n => (1, (n =? 2)%nat)) quiet_env) running_world
  = (Ret tt,
     notified 3
       ([EvSystemctlStart] ++ concat (replicate 3 notify_round)
        ++ [EvLog "gpsdctl: gpsd already tracking /run/nmea-bridge"])
       running_world).
Proof.
  apply (notify_gpsd_registers
           (with_gpsdctl (fun n => (1, (n =? 2)%nat)) quiet_env) 2 running_world).
  - lia.
  - intros i Hi. destruct i as [|[|i]]; [reflexivity|reflexivity|lia].
  - reflexivity.
Defined.



(** ** Discovery at its edges *)

Section DiscoveryEdges.

Variable E : env.

(** The object loop makes no call: it leaves the world as it is. *)
Lemma find_in_objects_world objs w : (find_in_objects objs w).2 = w.
Proof.
  induction objs as [|[path ifs] objs IH]; simpl; [reflexivity|].
  destruct (capable ifs); [|exact IH].
  destruct (Ascii7.py_int _); reflexivity.
Qed.

Lemma find_gps_modem_from_bounded n :
  forall attempt retries delay w,
    (n_enum (find_gps_modem_from E n attempt retries delay w).2 <= n_enum w + n)%nat.
Proof.
  induction n as [|n IH]; intros attempt retries delay w; simpl; [lia|].
  unfold bind at 1. unfold GetManagedObjects.
  set (w1 := add_event EvGetManagedObjects (next_enum w)).
  assert (H1 : n_enum w1 = S (n_enum w)) by reflexivity.
  destruct (managed_objects E (n_enum w)) as [e|objs]; [simpl; lia|].
  unfold bind at 1. pose proof (find_in_objects_world objs w1) as Hw.
  destruct (find_in_objects objs w1) as [[[r|]|e|c] w2]; simpl in Hw; subst w2;
    try (simpl; lia).
  unfold bind at 1.
  assert (Hstep : forall w2 o,
            (if attempt <? retries - 1
             then log (retry_message delay attempt retries) ;; time_sleep delay
             else ret tt) w1 = (o, w2) -> n_enum w2 = n_enum w1).
  { intros w2 o. destruct (attempt <? retries - 1).
    - unfold bind, log, emit, modify, time_sleep, raise.
      destruct (delay <? 0); intros [= _ <-]; reflexivity.
    - intros [= _ <-]. reflexivity. }
  destruct ((if attempt <? retries - 1
             then log (retry_message delay attempt retries) ;; time_sleep delay
             else ret tt) w1) as [[u|e|c] w2] eqn:Hrun;
    pose proof (Hstep _ _ eq_refl) as Hn; simpl; try lia.
  specialize (IH (attempt + 1) retries delay w2). lia.
Qed.

End DiscoveryEdges.

(** X3.  An enumeration that raises ends discovery at once: when the first
    [k] attempts found nothing and the next one raises [e],
    [find_gps_modem] raises [e] itself, without log line, sleep or further
    attempt. *)
Theorem find_gps_modem_bus_error (E : env) (retries delay : Z) (w : world)
    (k : nat) (e : exc) :
  0 <= delay ->
  Z.of_nat k < retries ->
  (forall i, (i < k)%nat ->
     exists objs, managed_objects E (n_enum w + i) = inr objs /\ no_capable objs) ->
  managed_objects E (n_enum w + k) = inl e ->
  find_gps_modem E retries delay w
  = (Raise e,
     missed (S k) (miss_events retries delay 0 k ++ [EvGetManagedObjects]) w).
Proof.
  intros Hdelay Hk Hmiss Herr. unfold find_gps_modem.
  replace (Z.to_nat retries) with (k + S (Z.to_nat retries - S k))%nat by lia.
  rewrite (find_gps_modem_misses E retries delay Hdelay k _ 0 w Hmiss).
  cbn [find_gps_modem_from]. unfold bind at 1. unfold GetManagedObjects.
  change (n_enum (missed k (miss_events retries delay 0 k) w))
    with (n_enum w + k)%nat.
  rewrite Herr. f_equal. unfold missed, add_event, next_enum.
  cbn [master_fd _last_nmea open_fds alias trace n_enum n_setup n_get n_write
       n_gpsdctl].
  f_equal; [rewrite <- app_assoc; reflexivity|lia].
Qed.

Lemma find_gps_modem_bus_error_witness :
  find_gps_modem
    (sample_env (Some 20)
       (fun n => if (n <? 1)%nat then inr [] else inl sample_no_reply)
       (fun _ _ => None) (fun _ => None))
    15 2 running_world
  = (Raise sample_no_reply,
     missed 2 (miss_events 15 2 0 1 ++ [EvGetManagedObjects]) running_world).
Proof.
  apply (find_gps_modem_bus_error _ 15 2 running_world 1 sample_no_reply).
  - lia.
  - lia.
  - intros i Hi. exists []. split; [|constructor].
    destruct i; [reflexivity|lia].
  - reflexivity.
Defined.

(** X4.  Whatever the bus answers, [find_gps_modem] never makes more than
    [retries] enumerations, and none at all when [retries] is zero or
    negative. *)
Theorem find_gps_modem_bounded (E : env) (retries delay : Z) (w : world) :
  (n_enum (find_gps_modem E retries delay w).2 <= n_enum w + Z.to_nat retries)%nat
  /\ (retries <= 0 ->
      find_gps_modem E retries delay w
      = (Raise (RuntimeError (no_modem_message retries delay)), w)).
Proof.
  split.
  - apply find_gps_modem_from_bounded.
  - intros Hr. unfold find_gps_modem.
    replace (Z.to_nat retries) with 0%nat by lia. reflexivity.
Qed.

(** X5.  The first capable object decides: when the text after the last
    slash of its path is no decimal numeral, [find_gps_modem] raises
    [ValueError], whatever objects follow it in the enumeration. *)
Theorem find_gps_modem_bad_path (E : env) (retries delay : Z) (w : world)
    (k : nat) (pre post : objects) (path : string) (ifs : interfaces) :
  0 <= delay ->
  Z.of_nat k < retries ->
  (forall i, (i < k)%nat ->
     exists objs, managed_objects E (n_enum w + i) = inr objs /\ no_capable objs) ->
  managed_objects E (n_enum w + k) = inr (pre ++ (path, ifs) :: post) ->
  no_capable pre ->
  capable ifs = true ->
  Ascii7.py_int (Ascii7.last_segment path) = None ->
  (find_gps_modem E retries delay w).1
  = Raise (ValueError "invalid literal for int() with base 10").
Proof.
  intros Hdelay Hk Hmiss Hobjs Hpre Hcap Hint. unfold find_gps_modem.
  replace (Z.to_nat retries) with (k + S (Z.to_nat retries - S k))%nat by lia.
  rewrite (find_gps_modem_misses E retries delay Hdelay k _ 0 w Hmiss).
  cbn [find_gps_modem_from]. unfold bind at 1. unfold GetManagedObjects.
  change (n_enum (missed k (miss_events retries delay 0 k) w))
    with (n_enum w + k)%nat.
  rewrite Hobjs. unfold bind at 1.
  assert (Hfind : forall w', find_in_objects (pre ++ (path, ifs) :: post) w'
            = (Raise (ValueError "invalid literal for int() with base 10"), w')).
  { intros w'. clear Hobjs. induction Hpre as [|[p i] pre Hc Hpre IH]; simpl.
    - rewrite Hcap, Hint. reflexivity.
    - simpl in Hc. rewrite Hc. exact IH. }
  rewrite Hfind. reflexivity.
Qed.

Lemma find_gps_modem_bad_path_witness :
  (find_gps_modem
     (sample_env (Some 20)
        (fun _ => inr (("/org/freedesktop/ModemManager1/Modem/any",
                        {[ MM_LOC_IFACE := {[ "Capabilities" := 4 ]} ]})
                       :: sample_objects))
        (fun _ _ => None) (fun _ => None))
     15 2 running_world).1
  = Raise (ValueError "invalid literal for int() with base 10").
Proof.
  apply (find_gps_modem_bad_path _ 15 2 running_world 0 []
           sample_objects "/org/freedesktop/ModemManager1/Modem/any"
           {[ MM_LOC_IFACE := {[ "Capabilities" := 4 ]} ]}).
  - lia.
  - lia.
  - intros i Hi. lia.
  - reflexivity.
  - constructor.
  - reflexivity.
  - reflexivity.
Defined.

Lemma land_4_bit c : Z.land c 4 <> 0 <-> Z.testbit c 2 = true.
Proof.
  split.
  - intros Hne. destruct (Z.testbit c 2) eqn:Hbit; [reflexivity|].
    exfalso. apply Hne. apply Z.bits_inj'. intros n Hn.
    rewrite Z.land_spec, Z.bits_0.
    change 4 with (2 ^ 2). rewrite Z.pow2_bits_eqb by lia.
    destruct (Z.eqb_spec 2 n) as [<-|_]; [rewrite Hbit; reflexivity|].
    apply andb_false_r.
  - intros Hbit Hzero.
    assert (H : Z.testbit (Z.land c 4) 2 = true).
    { rewrite Z.land_spec, Hbit. reflexivity. }
    rewrite Hzero, Z.bits_0 in H. discriminate.
Qed.

(** X6.  An object is taken as a GPS modem exactly when it exposes the
    location interface and bit 2 (value 4) of its [Capabilities] is set: the
    other bits do not matter, and an interface without [Capabilities]
    counts as capability 0. *)
Theorem capable_iff_nmea_bit (ifs : interfaces) :
  capable ifs = true
  <-> exists props caps,
        ifs !! MM_LOC_IFACE = Some props
        /\ props !! "Capabilities" = Some caps
        /\ Z.testbit caps 2 = true.
Proof.
  unfold capable, GPS_NMEA. split.
  - destruct (ifs !! MM_LOC_IFACE) as [props|]; [|discriminate].
    intros H. apply negb_true_iff, Z.eqb_neq, land_4_bit in H.
    destruct (props !! "Capabilities") as [caps|] eqn:Hcaps.
    + exists props, caps. auto.
    + simpl in H. discriminate.
  - intros (props & caps & -> & -> & Hbit). simpl.
    apply negb_true_iff, Z.eqb_neq, land_4_bit, Hbit.
Qed.

(** ** The sentences of a payload *)

Lemma splitlines_LF s : splitlines (LF :: s) = [] :: splitlines s.
Proof. destruct s; reflexivity. Qed.

Lemma keep_gluel_nil p : keep (gluel p []) = keep [p].
Proof. destruct p; reflexivity. Qed.

Lemma keep_gluel_break p ls : keep (gluel p ([] :: ls)) = keep [p] ++ keep ls.
Proof. simpl. rewrite app_nil_r. apply keep_cons. Qed.

(** The kept lines of two texts joined by a line feed, with [p] put in
    front. *)
Lemma keep_gluel_join :
  forall n s1, (length s1 <= n)%nat ->
    forall p s2,
      keep (gluel p (splitlines (s1 ++ LF :: s2)))
      = keep (gluel p (splitlines s1)) ++ keep (splitlines s2).
Proof.
  induction n as [|n IH]; intros s1 Hlen p s2.
  - destruct s1; [|simpl in Hlen; lia]. simpl app.
    change (splitlines []) with (@nil pystr).
    rewrite splitlines_LF, keep_gluel_break. destruct p; reflexivity.
  - destruct s1 as [|a s].
    { simpl app. change (splitlines []) with (@nil pystr).
      rewrite splitlines_LF, keep_gluel_break. destruct p; reflexivity. }
    simpl in Hlen. change ((a :: s) ++ LF :: s2) with (a :: (s ++ LF :: s2)).
    cbn [splitlines]. destruct (is_linebreak a).
    + destruct s as [|d s'].
      * simpl app. cbv beta iota. change ((LF =? LF)%N) with true.
        rewrite andb_true_r, ?app_nil_r.
        destruct (a =? CR)%N.
        -- rewrite keep_gluel_break. reflexivity.
        -- rewrite keep_gluel_break, splitlines_LF, (keep_cons []), keep_empty_line.
           reflexivity.
      * change ((d :: s') ++ LF :: s2) with (d :: (s' ++ LF :: s2)).
        cbv beta iota.
        destruct ((a =? CR)%N && (d =? LF)%N).
        -- rewrite !keep_gluel_break, <- app_assoc. f_equal.
           pose proof (IH s' ltac:(simpl in Hlen; lia) [] s2) as H.
           rewrite !gluel_nil in H. exact H.
        -- rewrite !keep_gluel_break, <- app_assoc. f_equal.
           pose proof (IH (d :: s') ltac:(lia) [] s2) as H.
           rewrite !gluel_nil in H. exact H.
    + rewrite !gluel_glue. apply IH. lia.
Qed.

(** X7.  The sentences kept from two texts joined by a line feed are the
    sentences kept from the first followed by those kept from the second:
    forwarding a joined payload makes the same writes as forwarding its two
    parts in turn. *)
Theorem nmea_lines_join (s1 s2 : pystr) :
  nmea_lines (s1 ++ LF :: s2) = nmea_lines s1 ++ nmea_lines s2.
Proof.
  rewrite !nmea_lines_spec. unfold spec_lines.
  fold (keep (splitlines (s1 ++ LF :: s2))).
  fold (keep (splitlines s1)). fold (keep (splitlines s2)).
  pose proof (keep_gluel_join (length s1) s1 ltac:(lia) [] s2) as H.
  rewrite !gluel_nil in H. exact H.
Qed.

Lemma lstrip_head s c r : lstrip s = c :: r -> py_isspace c = false.
Proof.
  induction s as [|a s IH]; simpl; [discriminate|].
  destruct (py_isspace a) eqn:Ha; [exact IH|]. intros [= <- _]. exact Ha.
Qed.

Lemma strip_last s c : last (strip s) = Some c -> py_isspace c = false.
Proof.
  unfold strip, rstrip. destruct (lstrip (rev (lstrip s))) as [|a r] eqn:H.
  - discriminate.
  - simpl. rewrite last_snoc. intros [= <-]. apply (lstrip_head _ _ _ H).
Qed.

Lemma glue_no_break c ls :
  is_linebreak c = false ->
  Forall (Forall (fun c => is_linebreak c = false)) ls ->
  Forall (Forall (fun c => is_linebreak c = false)) (glue c ls).
Proof. intros Hc H. apply glue_Forall; assumption. Qed.

(** No line of [splitlines] holds a line boundary. *)
Lemma splitlines_no_break :
  forall n s, (length s <= n)%nat ->
    Forall (Forall (fun c => is_linebreak c = false)) (splitlines s).
Proof.
  induction n as [|n IH]; intros s Hlen.
  - destruct s; [constructor|simpl in Hlen; lia].
  - destruct s as [|c s]; [constructor|]. simpl in Hlen.
    cbn [splitlines]. destruct (is_linebreak c) eqn:Hc.
    + constructor; [constructor|].
      destruct s as [|d s]; [constructor|]. simpl in Hlen.
      destruct ((c =? CR)%N && (d =? LF)%N); apply IH; simpl; lia.
    + apply glue_no_break; [exact Hc|]. apply IH. lia.
Qed.

(** X8.  Every line [write_nmea] sends is one sentence: it begins with the
    dollar sign, holds no line boundary, and ends in a character that is
    not whitespace, so that each write is the sentence and its CR LF. *)
Theorem nmea_lines_are_sentences (sentences : pystr) :
  Forall (fun line =>
            (exists body, line = DOLLAR :: body)
            /\ Forall (fun c => is_linebreak c = false) line
            /\ (forall c, last line = Some c -> py_isspace c = false))
         (nmea_lines sentences).
Proof.
  unfold nmea_lines. apply Forall_forall. intros line Hin.
  apply list_elem_of_filter in Hin as [Hdollar Hin].
  apply list_elem_of_In, in_map_iff in Hin as (raw & <- & Hraw).
  apply list_elem_of_In in Hraw.
  split; [|split].
  - destruct (strip raw) as [|c body]; [discriminate|].
    simpl in Hdollar. apply N.eqb_eq in Hdollar. subst c. eauto.
  - apply strip_Forall.
    pose proof (splitlines_no_break (length (strip sentences)) (strip sentences)
                  ltac:(lia)) as H.
    rewrite Forall_forall in H. apply H, Hraw.
  - intros c. apply strip_last.
Qed.

(** ** The event feed *)

(** X9.  A change notification is acted on only when it is for the location
    interface and carries a non-empty NMEA text under [Location]: for any
    other interface, without [Location], or without NMEA text in it, the
    handler returns and leaves the world as it is. *)
Theorem on_properties_changed_ignores (E : env) (iface : string)
    (changed : gmap string location) (w : world) :
  iface <> MM_LOC_IFACE
  \/ changed !! "Location" = None
  \/ (exists loc, changed !! "Location" = Some loc
                  /\ (loc !! GPS_NMEA = None \/ loc !! GPS_NMEA = Some [])) ->
  on_properties_changed E iface changed w = (Ret tt, w).
Proof.
  intros H. unfold on_properties_changed.
  destruct (String.eqb iface MM_LOC_IFACE) eqn:Heq; [|reflexivity].
  apply String.eqb_eq in Heq. simpl.
  destruct H as [Hne|[Hnone|(loc & Hloc & Hnmea)]]; [congruence| |].
  - rewrite Hnone. reflexivity.
  - rewrite Hloc. unfold nmea_of. simpl.
    destruct Hnmea as [-> | ->]; reflexivity.
Qed.

Lemma on_properties_changed_ignores_witness :
  on_properties_changed quiet_env "org.freedesktop.ModemManager1.Modem"
    sample_changed running_world
  = (Ret tt, running_world).
Proof.
  apply (on_properties_changed_ignores quiet_env
           "org.freedesktop.ModemManager1.Modem" sample_changed running_world).
  left. discriminate.
Defined.

Lemma on_properties_changed_forwards (E : env) (changed : gmap string location)
    (loc : location) (w : world) :
  changed !! "Location" = Some loc ->
  nmea_of loc <> [] ->
  on_properties_changed E MM_LOC_IFACE changed w = write_nmea E (nmea_of loc) w.
Proof.
  intros Hloc Hne. unfold on_properties_changed.
  rewrite String.eqb_refl. simpl. rewrite Hloc. simpl.
  destruct (nmea_of loc); [congruence|reflexivity].
Qed.

(** X10.  The two feeds do not deduplicate: when a poll tick and then a
    change notification carry the same payload, its sentences are written
    twice, tick first, and the snapshot holds the payload. *)
Theorem feeds_do_not_deduplicate (E : env) (path : string)
    (changed : gmap string location) (loc : location) (fd : Z) (w : world) :
  location_reply E path (n_get w) = inr loc ->
  changed !! "Location" = Some loc ->
  nmea_of loc <> [] ->
  master_fd w = Some fd ->
  encodable_str (nmea_of loc) ->
  (on_properties_changed E MM_LOC_IFACE changed (poll_nmea E path w).2).1 = Ret tt
  /\ attempted (trace (on_properties_changed E MM_LOC_IFACE changed
                         (poll_nmea E path w).2).2)
     = attempted (trace w)
       ++ map (fun line => (fd, line_data line)) (nmea_lines (nmea_of loc))
       ++ map (fun line => (fd, line_data line)) (nmea_lines (nmea_of loc))
  /\ _last_nmea (on_properties_changed E MM_LOC_IFACE changed
                   (poll_nmea E path w).2).2
     = nmea_of loc.
Proof.
  intros Hreply Hloc Hne Hfd Henc.
  rewrite (poll_nmea_forwards E path w loc fd Hreply Hne Hfd Henc).
  set (w1 := set_last_nmea (nmea_of loc)
               (fold_left (forward_line E fd) (nmea_lines (nmea_of loc)) (got path w))).
  assert (Hfd1 : master_fd w1 = Some fd).
  { subst w1. simpl. rewrite forward_lines_master_fd. exact Hfd. }
  rewrite (on_properties_changed_forwards E changed loc w1 Hloc Hne).
  rewrite (write_nmea_run E fd (nmea_of loc) w1 Hfd1 Henc). cbn [fst snd].
  split; [reflexivity|]. split.
  - rewrite forward_lines_attempted. subst w1. cbn [trace set_last_nmea].
    rewrite forward_lines_attempted. unfold got, add_event, next_get. cbn [trace].
    rewrite attempted_app. simpl. rewrite app_nil_r, <- app_assoc. reflexivity.
  - destruct (forward_lines_kept E fd (nmea_lines (nmea_of loc)) w1) as (-> & _).
    reflexivity.
Qed.

Lemma feeds_do_not_deduplicate_witness :
  attempted (trace (on_properties_changed quiet_env MM_LOC_IFACE
                      {[ "Location" := {[ GPS_NMEA := sample_payload ]} ]}
                      (poll_nmea quiet_env sample_modem_path running_world).2).2)
  = attempted (trace running_world)
    ++ map (fun line => (3, line_data line))
           (nmea_lines (nmea_of {[ GPS_NMEA := sample_payload ]}))
    ++ map (fun line => (3, line_data line))
           (nmea_lines (nmea_of {[ GPS_NMEA := sample_payload ]})).
Proof.
  apply (feeds_do_not_deduplicate quiet_env sample_modem_path
           {[ "Location" := {[ GPS_NMEA := sample_payload ]} ]}
           {[ GPS_NMEA := sample_payload ]} 3 running_world).
  - reflexivity.
  - reflexivity.
  - discriminate.
  - reflexivity.
  - exact sample_payload_encodable.
Defined.

(** ** Forwarding without a handle *)

Lemma write_nmea_loop_without_handle (E : env) raw w :
  master_fd w = None ->
  Forall encodable_str raw ->
  exists msg,
    for_each raw (fun line =>
      let line := strip line in
      if startswith_dollar line then
        try_except
          (data <- encode_line line ;; fd <- gets master_fd ;; os_write E fd data)
          is_OSError
          (fun exc => log ("PTY write error: " +:+ exc_str exc))
      else ret tt) w
    = (match keep raw with [] => Ret tt | _ => Raise (TypeError msg) end, w).
Proof.
  intros Hfd Henc. exists "an integer is required".
  induction Henc as [|l raw Hl Hraw IH]; [reflexivity|].
  cbn [for_each]. unfold bind at 1. rewrite keep_cons. cbv zeta.
  unfold keep at 1. simpl map. rewrite filter_cons, filter_nil.
  destruct (startswith_dollar (strip l)) eqn:Hd.
  - rewrite decide_True by reflexivity. simpl app.
    unfold try_except, bind, encode_line, gets, os_write.
    rewrite (encode_line_ok (strip l) (strip_Forall _ _ Hl)). simpl.
    rewrite Hfd. reflexivity.
  - rewrite decide_False by discriminate. simpl app. exact IH.
Qed.

(** X11.  [write_nmea] catches [OSError] only.  Called before [setup_pty]
    has stored a handle, it raises [TypeError] at the first sentence,
    writing and logging nothing; a poll tick in that state catches the
    error, logs it, returns true and records no snapshot. *)
Theorem write_nmea_without_handle (E : env) (path : string) (loc : location)
    (w : world) :
  master_fd w = None ->
  encodable_str (nmea_of loc) ->
  nmea_lines (nmea_of loc) <> [] ->
  (exists msg, write_nmea E (nmea_of loc) w = (Raise (TypeError msg), w))
  /\ (location_reply E path (n_get w) = inr loc ->
      exists msg,
        poll_nmea E path w
        = (Ret true, add_event (EvLog ("Poll error: " +:+ msg)) (got path w))).
Proof.
  intros Hfd Henc Hlines.
  assert (Hrun : forall w', master_fd w' = None ->
            exists msg, write_nmea E (nmea_of loc) w' = (Raise (TypeError msg), w')).
  { intros w' Hfd'.
    destruct (write_nmea_loop_without_handle E (splitlines (strip (nmea_of loc))) w'
                Hfd' (raw_lines_encodable _ Henc)) as (msg & Hloop).
    exists msg. unfold write_nmea. refine (eq_trans Hloop _).
    unfold nmea_lines in Hlines. fold (keep (splitlines (strip (nmea_of loc)))) in Hlines.
    destruct (keep (splitlines (strip (nmea_of loc)))); [congruence|reflexivity]. }
  split; [apply Hrun, Hfd|].
  intros Hreply. destruct (Hrun (got path w) Hfd) as (msg & Hw).
  exists msg. unfold poll_nmea, bind, try_except, props_iface_Get.
  rewrite Hreply. cbv zeta. fold (got path w).
  destruct (nmea_of loc) as [|c s] eqn:Hn; [exfalso; apply Hlines; reflexivity|].
  cbn [nonempty]. rewrite Hw. reflexivity.
Qed.

Lemma write_nmea_without_handle_witness :
  exists msg,
    write_nmea quiet_env (nmea_of {[ GPS_NMEA := sample_payload ]})
               (initial_world NoFile)
    = (Raise (TypeError msg), initial_world NoFile).
Proof.
  refine (proj1 (write_nmea_without_handle quiet_env sample_modem_path
                   {[ GPS_NMEA := sample_payload ]} (initial_world NoFile)
                   eq_refl _ _)).
  - exact sample_payload_encodable.
  - vm_compute. discriminate.
Defined.

(** ** The reactor *)

Lemma same_station_refl w : same_station w w.
Proof. repeat split. Qed.

Lemma same_station_trans w1 w2 w3 :
  same_station w1 w2 -> same_station w2 w3 -> same_station w1 w3.
Proof. unfold same_station. intros (?&?&?&?) (?&?&?&?). repeat split; congruence. Qed.

Section Reactor.

Variable E : env.

Lemma station_emit e : preserves same_station (emit e).
Proof. by_cases. Qed.

Lemma station_os_write fd data : preserves same_station (os_write E fd data).
Proof. unfold os_write. by_cases. Qed.

Lemma station_encode_line line : preserves same_station (encode_line line).
Proof. unfold encode_line. by_cases. Qed.

Lemma station_write_nmea sentences : preserves same_station (write_nmea E sentences).
Proof.
  unfold write_nmea. apply preserves_for_each;
    [apply same_station_refl|apply same_station_trans|].
  intros line. cbv zeta.
  apply preserves_if; [|apply preserves_ret, same_station_refl].
  apply preserves_try; [apply same_station_trans| |intros e; apply station_emit].
  apply preserves_bind; [apply same_station_trans|apply station_encode_line|].
  intros data. apply preserves_bind;
    [apply same_station_trans|apply preserves_gets, same_station_refl|].
  intros fd. apply station_os_write.
Qed.

Lemma station_on_properties_changed iface changed :
  preserves same_station (on_properties_changed E iface changed).
Proof.
  unfold on_properties_changed.
  apply preserves_if; [apply preserves_ret, same_station_refl|]. cbv zeta.
  apply preserves_if; [apply station_write_nmea|apply preserves_ret, same_station_refl].
Qed.

Lemma no_exit_on_properties_changed iface changed :
  no_exit (on_properties_changed E iface changed).
Proof.
  unfold on_properties_changed. destruct (negb _); [apply no_exit_ret|]. cbv zeta.
  destruct (nonempty _); [apply no_exit_write_nmea|apply no_exit_ret].
Qed.

(** A notification handled by the reactor: it returns, whatever the
    handler did, and the station is as it was. *)
Lemma dispatch_notification iface changed w :
  exists w',
    try_except (on_properties_changed E iface changed) is_Exception
               (fun _ => ret tt) w = (Ret tt, w')
    /\ same_station w w'.
Proof.
  pose proof (station_on_properties_changed iface changed w) as Hst.
  pose proof (no_exit_on_properties_changed iface changed w) as Hne.
  unfold try_except.
  destruct (on_properties_changed E iface changed w) as [[[]|e|c] w'];
    simpl in *.
  - exists w'. split; [reflexivity|exact Hst].
  - exists w'. split; [reflexivity|exact Hst].
  - exfalso. apply (Hne c). reflexivity.
Qed.

(** A tick: it returns true, one read was made, the endpoint is as it was. *)
Lemma dispatch_tick path w :
  exists w',
    poll_nmea E path w = (Ret true, w')
    /\ master_fd w' = master_fd w /\ open_fds w' = open_fds w
    /\ alias w' = alias w /\ n_get w' = S (n_get w).
Proof.
  pose proof (poll_nmea_returns_true E path w) as Hret.
  destruct (poll_nmea E path w) as [o w'] eqn:Hrun. simpl in Hret. subst o.
  exists w'. split; [reflexivity|].
  assert (Hst : same_station (got path w) w').
  { replace w' with (poll_nmea E path w).2 by (rewrite Hrun; reflexivity).
    unfold poll_nmea, bind, try_except, props_iface_Get. fold (got path w).
    destruct (location_reply E path (n_get w)) as [e|loc]; simpl.
    - repeat split.
    - destruct (nonempty (nmea_of loc)); [|repeat split].
      pose proof (station_write_nmea (nmea_of loc) (got path w)) as Hw.
      destruct (write_nmea E (nmea_of loc) (got path w)) as [[[]|e|c] w2];
        simpl in *; exact Hw. }
  destruct Hst as (H1 & H2 & H3 & H4). repeat split; assumption.
Qed.

(** Without a termination signal the reactor goes through all its events. *)
Lemma mainloop_run_quiet path evs :
  no_signal evs ->
  forall w rest,
    exists w',
      mainloop_run E path true (evs ++ rest) w = mainloop_run E path true rest w'
      /\ master_fd w' = master_fd w /\ open_fds w' = open_fds w
      /\ alias w' = alias w /\ n_get w' = (n_get w + ticks evs)%nat.
Proof.
  induction 1 as [|ev evs Hev Hevs IH]; intros w rest.
  - exists w. simpl. rewrite Nat.add_0_r. repeat split.
  - destruct ev as [|iface changed|signum]; [| |destruct Hev].
    + destruct (dispatch_tick path w) as (w1 & Hrun & H1 & H2 & H3 & H4).
      destruct (IH w1 rest) as (w' & Hloop & G1 & G2 & G3 & G4).
      exists w'. split.
      * simpl. unfold bind. rewrite Hrun. exact Hloop.
      * simpl. repeat split; try congruence. lia.
    + destruct (dispatch_notification iface changed w) as (w1 & Hrun & H1 & H2 & H3 & H4).
      destruct (IH w1 rest) as (w' & Hloop & G1 & G2 & G3 & G4).
      exists w'. split.
      * simpl. unfold bind. rewrite Hrun. exact Hloop.
      * simpl. repeat split; congruence.
Qed.

End Reactor.

(** X12.  Ticks and change notifications never stop the reactor and never
    touch the endpoint: after any events without a termination signal the
    loop has returned from every callback, the timer is still armed (each
    tick made its read), and the handle, the open descriptors and the alias
    are as they were. *)
Theorem mainloop_survives_callbacks (E : env) (path : string)
    (evs : list reactor_event) (w : world) :
  no_signal evs ->
  (mainloop_run E path true evs w).1 = Ret tt
  /\ n_get (mainloop_run E path true evs w).2 = (n_get w + ticks evs)%nat
  /\ master_fd (mainloop_run E path true evs w).2 = master_fd w
  /\ open_fds (mainloop_run E path true evs w).2 = open_fds w
  /\ alias (mainloop_run E path true evs w).2 = alias w.
Proof.
  intros Hevs.
  destruct (mainloop_run_quiet E path evs Hevs w []) as (w' & Hrun & H1 & H2 & H3 & H4).
  rewrite app_nil_r in Hrun. rewrite Hrun. simpl. auto.
Qed.

Lemma mainloop_survives_callbacks_witness :
  (mainloop_run quiet_env sample_modem_path true
     [TimerTick; PropertiesChanged MM_LOC_IFACE sample_changed; TimerTick]
     running_world).1 = Ret tt.
Proof.
  apply (mainloop_survives_callbacks quiet_env sample_modem_path
           [TimerTick; PropertiesChanged MM_LOC_IFACE sample_changed; TimerTick]
           running_world).
  repeat constructor.
Defined.

(** X14.  When removing the alias fails, [cleanup] ends in that error right
    there: the handle is not closed and [sys.exit(0)] is not reached; the
    log line and the deactivation call have been made. *)
Theorem cleanup_unlink_fails (E : env) (path : string) (w : world)
    (target : string) (e : exc) :
  alias w = SymlinkTo target ->
  unlink_error E = Some e ->
  cleanup E path w = (Raise e, shut path [] w).
Proof.
  intros Halias Hunlink. destruct w. simpl in *. subst.
  unfold cleanup, bind, log, emit, modify, try_except, location_iface_Setup,
    os_path_islink, gets, os_unlink, os_close, ret, sys_exit, shut, add_event,
    next_setup, set_alias, set_open_fds.
  cbn [master_fd _last_nmea open_fds alias trace n_enum n_setup n_get n_write
       n_gpsdctl is_Exception].
  rewrite Hunlink.
  destruct (setup_reply E path n_setup0); cbn [alias trace];
    rewrite <- ?app_assoc; reflexivity.
Qed.

Lemma cleanup_unlink_fails_witness :
  cleanup (with_unlink_error sample_eperm quiet_env) sample_modem_path running_world
  = (Raise sample_eperm, shut sample_modem_path [] running_world).
Proof.
  apply (cleanup_unlink_fails (with_unlink_error sample_eperm quiet_env)
           sample_modem_path running_world "/dev/pts/5" sample_eperm).
  - reflexivity.
  - reflexivity.
Defined.

(** ** The endpoint [setup_pty] builds *)

Ltac run_pty :=
  cbv [setup_pty bind pty_openpty lift_reply modify os_ttyname os_close
       grp_getgrnam_dialout os_chown os_chmod fail_if emit os_path_islink
       os_path_exists gets os_unlink os_symlink log ret raise
       add_event set_alias set_open_fds set_master_fd
       master_fd _last_nmea open_fds alias trace n_enum n_setup n_get n_write
       n_gpsdctl fst snd].

Lemma slave_is_closed (fds : gset Z) (m s : Z) : s ∉ (fds ∪ {[ m; s ]}) ∖ {[ s ]}.
Proof.
  intros H. apply elem_of_difference in H as [_ H]. apply H.
  apply elem_of_singleton. reflexivity.
Qed.

(** X15.  When every step succeeds, [setup_pty] returns the name of the
    slave device and leaves the alias a symbolic link to it, whatever was at
    the alias path before (a stale link or file is unlinked first); the
    handle is stored and open, the slave descriptor is closed, and owner
    and mode of the slave device are set before the alias appears. *)
Theorem setup_pty_publishes_alias (E : env) (w : world) (m s : Z) (name : string)
    (gid : Z) :
  endpoint_acquired E (alias w) m s name gid ->
  (setup_pty E w).1 = Ret name
  /\ alias (setup_pty E w).2 = SymlinkTo name
  /\ master_fd (setup_pty E w).2 = Some m
  /\ m ∈ open_fds (setup_pty E w).2
  /\ (s ∉ open_fds (setup_pty E w).2)
  /\ trace (setup_pty E w).2
     = trace w
       ++ [EvClose s None; EvChown name 0 gid; EvChmod name 432]
       ++ match alias w with NoFile => [] | _ => [EvUnlink] end
       ++ [EvSymlink name;
           EvLog ("PTY slave: " +:+ name +:+ "  " +:+ arrow +:+ "  " +:+ PTY_LINK)].
Proof.
  intros Hacq. pose proof Hacq as ((_ & Hne & _) & _).
  rewrite (setup_pty_ready E w m s name gid Hacq). cbn [fst snd].
  split; [reflexivity|]. split; [reflexivity|].
  assert (Hfds : open_fds (endpoint_ready m s name gid w)
                 = (open_fds w ∪ {[ m; s ]}) ∖ {[ s ]}).
  { unfold endpoint_ready, unstaled. simpl. destruct (alias w); reflexivity. }
  split; [|split; [|split]].
  - unfold endpoint_ready, unstaled. simpl. destruct (alias w); reflexivity.
  - rewrite Hfds. apply handle_stays_open, Hne.
  - rewrite Hfds. apply slave_is_closed.
  - unfold endpoint_ready, unstaled, prepared, pty_opened. simpl.
    destruct (alias w); simpl; rewrite <- !app_assoc; reflexivity.
Qed.

Lemma setup_pty_publishes_alias_witness :
  (setup_pty quiet_env (initial_world OtherFile)).1 = Ret "/dev/pts/5"
  /\ alias (setup_pty quiet_env (initial_world OtherFile)).2 = SymlinkTo "/dev/pts/5".
Proof.
  destruct (setup_pty_publishes_alias quiet_env (initial_world OtherFile)
              3 4 "/dev/pts/5" 20) as (H1 & H2 & _).
  - repeat split; try reflexivity; [discriminate|right; reflexivity].
  - split; [exact H1|exact H2].
Defined.

(** X16.  Once the pair is open and the slave named, [setup_pty] ends with
    the handle stored and open and the slave descriptor closed, however it
    ends; and the new alias is there exactly when it returns: when it
    raises, the alias path holds what it held before or nothing. *)
Theorem setup_pty_keeps_handle (E : env) (w : world) (m s : Z) (name : string) :
  pty_pair E m s name ->
  master_fd (setup_pty E w).2 = Some m
  /\ m ∈ open_fds (setup_pty E w).2
  /\ (s ∉ open_fds (setup_pty E w).2)
  /\ ((setup_pty E w).1 = Ret name /\ alias (setup_pty E w).2 = SymlinkTo name
      \/ (exists e, (setup_pty E w).1 = Raise e)
         /\ (alias (setup_pty E w).2 = alias w \/ alias (setup_pty E w).2 = NoFile)).
Proof.
  intros (Hpty & Hne & Htty).
  destruct w as [mfd last fds al tr ne ns ng nw ngp].
  run_pty. rewrite Hpty. run_pty. rewrite Htty. run_pty.
  rewrite decide_True by apply slave_is_open. run_pty.
  destruct (getgrnam_dialout E) as [gid|]; run_pty;
    [destruct (chown_error E); run_pty;
       [|destruct (chmod_error E); run_pty;
           [|destruct al as [|target|]; run_pty;
               [ destruct (symlink_error E); run_pty
               | destruct (unlink_error E); run_pty;
                   [|destruct (symlink_error E); run_pty]
               | destruct (unlink_error E); run_pty;
                   [|destruct (symlink_error E); run_pty] ]]]|];
    (split; [reflexivity|]);
    (split; [apply handle_stays_open, Hne|]);
    (split; [apply slave_is_closed|]);
    first [ left; split; reflexivity
          | right; split; [eexists; reflexivity|];
            first [left; reflexivity|right; reflexivity] ].
Qed.

Lemma setup_pty_keeps_handle_witness :
  master_fd (setup_pty no_modem_env (initial_world NoFile)).2 = Some 3.
Proof.
  apply (setup_pty_keeps_handle no_modem_env (initial_world NoFile) 3 4 "/dev/pts/5").
  repeat split; [discriminate].
Defined.

(** ** From startup to shutdown *)

Section EndToEnd.

Variable E : env.



End EndToEnd.



(** ** The index on the command line and the path built from it *)

Section IndexText.

Import Ascii7.

Lemma pretty_N_char_digit d :
  (d < 10)%N -> digit_val (pretty_N_char d) = Some (Z.of_N d).
Proof.
  intros Hd.
  assert (d = 0 \/ d = 1 \/ d = 2 \/ d = 3 \/ d = 4 \/ d = 5 \/ d = 6 \/ d = 7
          \/ d = 8 \/ d = 9)%N as H by lia.
  repeat (destruct H as [->|H]; [reflexivity|]). subst d. reflexivity.
Qed.

Lemma pretty_N_char_index d : is_index_char (pretty_N_char d) = true.
Proof.
  unfold pretty_N_char.
  repeat match goal with
         | |- context [match ?x with _ => _ end] => destruct x
         end; reflexivity.
Qed.

Lemma all_chars_pretty_N_go x :
  forall s, all_chars is_index_char s = true ->
            all_chars is_index_char (pretty_N_go x s) = true.
Proof.
  induction (N.lt_wf_0 x) as [x _ IH]. intros s Hs.
  destruct (N.eq_dec x 0%N) as [->|Hx]; [exact Hs|].
  rewrite pretty_N_go_step by lia. apply IH.
  - apply N.div_lt; lia.
  - simpl. rewrite pretty_N_char_index. exact Hs.
Qed.

Lemma all_chars_pretty (i : Z) : all_chars is_index_char (pretty i) = true.
Proof.
  destruct i as [|p|p]; [reflexivity| |].
  - apply (all_chars_pretty_N_go (N.pos p) ""). reflexivity.
  - change (pretty (Z.neg p)) with ("-" +:+ pretty_N_go (N.pos p) "").
    simpl. apply (all_chars_pretty_N_go (N.pos p) ""). reflexivity.
Qed.

(** The digits of [x] in front of [s] are read as [x]. *)
Lemma digits_pretty_N_go x :
  (0 < x)%N ->
  forall s, exists k,
    0 <= k /\ forall acc b,
      digits acc b (pretty_N_go x s) = digits (acc * 10 ^ k + Z.of_N x) true s.
Proof.
  induction (N.lt_wf_0 x) as [x _ IH]. intros Hx s.
  rewrite pretty_N_go_step by exact Hx.
  pose proof (pretty_N_char_digit (x mod 10)%N ltac:(apply N.mod_lt; lia)) as Hd.
  pose proof (f_equal Z.of_N (N.div_mod x 10%N ltac:(lia))) as Hz.
  rewrite N2Z.inj_add, N2Z.inj_mul in Hz. change (Z.of_N 10) with 10 in Hz.
  destruct (N.eq_dec (x / 10)%N 0%N) as [Hq|Hq].
  - rewrite Hq in Hz |- *. exists 1. split; [lia|]. intros acc b.
    rewrite pretty_N_go_0. cbn [digits]. rewrite Hd. f_equal.
    rewrite Hz. change (Z.of_N 0) with 0. change (10 ^ 1) with 10. ring.
  - destruct (IH (x / 10)%N ltac:(apply N.div_lt; lia)
                ltac:(apply N.neq_0_lt_0; exact Hq)
                (String (pretty_N_char (x mod 10)%N) s)) as (k & Hk & Hrun).
    exists (k + 1). split; [lia|]. intros acc b.
    rewrite Hrun. cbn [digits]. rewrite Hd. f_equal.
    rewrite Z.pow_add_r by lia. change (10 ^ 1) with 10. rewrite Hz. ring.
Qed.

Lemma digits_pretty_pos p : digits 0 false (pretty_N_go (N.pos p) "") = Some (Z.pos p).
Proof.
  destruct (digits_pretty_N_go (N.pos p) ltac:(lia) "") as (k & _ & Hrun).
  rewrite Hrun. reflexivity.
Qed.

Lemma lstrip_index_text s : all_chars is_index_char s = true -> lstrip s = s.
Proof.
  destruct s as [|a s]; [reflexivity|]. simpl. intros H.
  apply andb_true_iff in H as [Ha _].
  destruct a as [[] [] [] [] [] [] [] []]; try discriminate Ha; reflexivity.
Qed.

Lemma all_chars_rev_app P s t :
  all_chars P s = true -> all_chars P t = true ->
  all_chars P (String.rev_app s t) = true.
Proof.
  revert t. induction s as [|a s IH]; intros t Hs Ht; [exact Ht|].
  simpl in Hs. apply andb_true_iff in Hs as [Ha Hs].
  simpl. apply IH; [exact Hs|]. simpl. rewrite Ha. exact Ht.
Qed.

Lemma rev_app_rev_app s :
  forall t u, String.rev_app (String.rev_app s t) u = String.rev_app t (s +:+ u).
Proof.
  induction s as [|a s IH]; intros t u; [reflexivity|].
  simpl. rewrite IH. reflexivity.
Qed.

Lemma append_empty_r s : s +:+ "" = s.
Proof.
  induction s as [|a s IH]; [reflexivity|].
  change (String a (s +:+ "") = String a s). f_equal. exact IH.
Qed.

Lemma strip_index_text s : all_chars is_index_char s = true -> strip s = s.
Proof.
  intros H. unfold strip. rewrite (lstrip_index_text s H).
  rewrite lstrip_index_text.
  - unfold String.rev. rewrite rev_app_rev_app. simpl. apply append_empty_r.
  - apply all_chars_rev_app; [exact H|reflexivity].
Qed.

(** A text that reads as digits is read by [py_int] as those digits. *)
Lemma py_int_of_digits s v :
  strip s = s -> digits 0 false s = Some v -> py_int s = Some v.
Proof.
  intros Hstrip H. unfold py_int. rewrite Hstrip.
  destruct s as [|a s]; [discriminate|].
  destruct a as [[] [] [] [] [] [] [] []]; try discriminate H; exact H.
Qed.

(** [int] reads back what the f-string printed. *)
Lemma py_int_pretty (i : Z) : py_int (pretty i) = Some i.
Proof.
  pose proof (strip_index_text (pretty i) (all_chars_pretty i)) as Hstrip.
  destruct i as [|p|p]; [reflexivity| |].
  - apply py_int_of_digits; [exact Hstrip|]. apply digits_pretty_pos.
  - unfold py_int. rewrite Hstrip.
    change (pretty (Z.neg p)) with (String "-" (pretty_N_go (N.pos p) "")).
    cbv beta iota. rewrite digits_pretty_pos. reflexivity.
Qed.

Lemma append_cons_assoc cur a s : (cur +:+ String a "") +:+ s = cur +:+ String a s.
Proof.
  induction cur as [|c cur IH]; [reflexivity|].
  change (String c ((cur +:+ String a "") +:+ s) = String c (cur +:+ String a s)).
  f_equal. exact IH.
Qed.

Lemma last_segment_from_index_text s :
  all_chars is_index_char s = true ->
  forall cur, last_segment_from cur s = cur +:+ s.
Proof.
  induction s as [|a s IH]; intros H cur; [symmetry; apply append_empty_r|].
  simpl in H. apply andb_true_iff in H as [Ha Hs].
  cbn [last_segment_from].
  assert (Hslash : Ascii.eqb a "/" = false).
  { destruct a as [[] [] [] [] [] [] [] []]; try discriminate Ha; reflexivity. }
  rewrite Hslash, (IH Hs). apply append_cons_assoc.
Qed.

Lemma last_segment_modem_path (i : Z) : last_segment (modem_path_of i) = pretty i.
Proof.
  unfold last_segment, modem_path_of. cbn [String.append last_segment_from].
  simpl. apply (last_segment_from_index_text (pretty i) (all_chars_pretty i) "").
Qed.

End IndexText.

(** X18.  An index given on the command line is used as it is, without any
    call on the bus, and the path built from it is the one whose last
    segment reads back as that index: discovery of an object at that path
    would name the same modem. *)
Theorem explicit_index_round_trip (E : env) (w : world) (prog arg : string)
    (rest : list string) (i : Z) :
  argv E = prog :: arg :: rest ->
  Ascii7.py_int arg = Some i ->
  choose_modem E w = (Ret (i, modem_path_of i), w)
  /\ Ascii7.py_int (Ascii7.last_segment (modem_path_of i)) = Some i.
Proof.
  intros Hargv Hint. split.
  - unfold choose_modem. rewrite Hargv, Hint. reflexivity.
  - rewrite last_segment_modem_path. apply py_int_pretty.
Qed.

Lemma explicit_index_round_trip_witness :
  choose_modem (with_argv ["mm-nmea-bridge.py"; "12"] quiet_env) running_world
  = (Ret (12, modem_path_of 12), running_world)
  /\ Ascii7.py_int (Ascii7.last_segment (modem_path_of 12)) = Some 12.
Proof.
  apply (explicit_index_round_trip (with_argv ["mm-nmea-bridge.py"; "12"] quiet_env)
           running_world "mm-nmea-bridge.py" "12" [] 12).
  - reflexivity.
  - reflexivity.
Defined.

(** ** Teardown with and without an endpoint *)

(** X19.  [cleanup] is safe to call when nothing was created: with no
    handle stored and no symbolic link at the alias path it logs, attempts
    the deactivation (whose failure is ignored), unlinks nothing, closes
    nothing and exits with status 0. *)
Theorem cleanup_without_endpoint (E : env) (path : string) (w : world) :
  master_fd w = None ->
  (forall target, alias w <> SymlinkTo target) ->
  cleanup E path w = (Exit 0, shut path [] w).
Proof.
  intros Hfd Halias. apply cleanup_nothing_created; assumption.
Qed.

Lemma cleanup_without_endpoint_witness :
  cleanup flaky_env sample_modem_path (initial_world NoFile)
  = (Exit 0, shut sample_modem_path [] (initial_world NoFile)).
Proof.
  apply (cleanup_without_endpoint flaky_env sample_modem_path (initial_world NoFile)).
  - reflexivity.
  - intros target. discriminate.
Defined.


